(** * iatf-selfie: face-centering guidance and capture engine

    A shallow embedding of [src/shared/util.js] and [src/index.js].

    - JavaScript numbers are IEEE 754 binary64 values: they are modelled by
      Rocq's primitive [float], whose operations are the same binary64
      operations (round to nearest, ties to even).
    - [Date.now()] yields an integral number of milliseconds; on such values
      (far below 2^53) binary64 subtraction and comparison are exact, so
      time stamps are modelled in [Z].
    - JavaScript strings are modelled by [string]; the two emoji of the
      status line are written as their UTF-8 bytes.
    - The browser (DOM, speech synthesis, alerts, timers) is modelled by an
      explicit [World] that every function threads, together with a [trace]
      of the calls made to the platform.
    - The constants of [params.js], which is not among the sources, are
      parameters of the functions that read them: [NUM_KEYPOINTS] of the
      drawing functions, the map of flag ranges of
      [setBackendAndEnvFlags]. *)

From Stdlib Require Import Floats ZArith Bool List String Ascii Lia.
Import ListNotations.
Set Warnings "-inexact-float".

(* ================================================================== *)
(** * JavaScript primitives used by the sources *)
(* ================================================================== *)

Module JS.
Local Open Scope string_scope.

Definition number := float.

(** [a > b] on numbers. *)
Definition gtb (a b : number) : bool := PrimFloat.ltb b a.

(** [String.prototype.includes]. *)
Fixpoint includes (hay needle : string) : bool :=
  String.prefix needle hay ||
  match hay with
  | EmptyString => false
  | String _ rest => includes rest needle
  end.

(** [Array.prototype.join]. *)
Definition join (parts : list string) (sep : string) : string :=
  String.concat sep parts.

(** Truthiness of a possibly undefined string. *)
Definition truthy (v : option string) : bool :=
  match v with
  | None => false
  | Some s => negb (String.eqb s "")
  end.

(** U+2705 and U+274C in UTF-8. *)
Definition check_mark : string :=
  String (ascii_of_nat 226) (String (ascii_of_nat 156) (String (ascii_of_nat 133) EmptyString)).
Definition cross_mark : string :=
  String (ascii_of_nat 226) (String (ascii_of_nat 157) (String (ascii_of_nat 140) EmptyString)).

End JS.

(* ================================================================== *)
(** * The world the scripts run in *)
(* ================================================================== *)

(** Calls made to the platform, oldest first.  [Announce] records each entry
    into [speakMessage] with its two arguments.  [SharePhoto] is the fetch
    of the image that starts a share, [DownloadPhoto] a click on a
    download link. *)
Inductive Event : Type :=
| Announce (message : string) (interrupt : bool)
| ConsoleWarn (text : string)
| ConsoleLog (text : string)
| ConsoleError (text : string)
| SpeechCancel
| SpeechResume
| SpeechSpeak (text : string)
| Alert (text : string)
| Focus (id : string)
| Shutter
| DetectorDispose (id : nat)
| DrawCtx
| StatsPanelUpdate (fps : float)
| SharePhoto (filename : string)
| DownloadPhoto (filename : string)
| CancelAnimationFrame
| RequestAnimationFrame.

(** [#face-status]. *)
Record StatusElement : Type := {
  textContent : string;
  color : string
}.

(** A button whose visibility the scripts toggle. *)
Record Button : Type := {
  display : string;
  label : string
}.

(** A still picture: video frame [frame], possibly flipped horizontally. *)
Record Picture : Type := {
  frame : nat;
  flipped : bool
}.

(** [#photo-canvas]. *)
Record PhotoCanvas : Type := {
  pc_width : float;
  pc_height : float;
  pc_content : option Picture
}.

(** [#captured-photo]. *)
Record CapturedPhoto : Type := {
  src : option Picture;
  img_display : string
}.

(** The elements of [index.html] the scripts touch.  An element is optional
    here exactly when every use of it in the scripts is guarded by a null
    check. *)
Record Document : Type := {
  faceStatus : option StatusElement;
  takeAndDownloadButton : option Button;
  startOverButton : option Button;
  downloadDisabled : bool;
  photoCanvas : PhotoCanvas;
  capturedPhoto : CapturedPhoto
}.

(** Module variables of [util.js]. *)
Record UtilVars : Type := {
  lastAnnouncedStatus : string;
  lastAnnouncementTime : Z
}.

(** [STATE] of [params.js], as far as [index.js] reads and writes it. *)
Record StateFlags : Type := {
  isTargetFPSChanged : bool;
  isSizeOptionChanged : bool;
  isModelChanged : bool;
  isFlagChanged : bool;
  isBackendChanged : bool;
  boundingBox : bool;
  keypointsOption : bool
}.

(** Module variables of [index.js].  [detector] holds the identity of the
    live detector, [stats] tells whether [setupStats] has run. *)
Record IndexVars : Type := {
  detector : option nat;
  stats : bool;
  startInferenceTime : float;
  numInferences : float;
  inferenceTimeSum : float;
  lastPanelUpdate : float;
  canvasWidth : float;
  canvasHeight : float
}.

(** A task queued with [setTimeout]. *)
Inductive Task : Type :=
| SaveAndDisable (filename : string) (mobile : bool)
| FocusStartOver.

Record World : Type := {
  util : UtilVars;
  currentFaceGuidance : option string;
  doc : Document;
  STATE : StateFlags;
  vars : IndexVars;
  timers : list (Z * Task);
  trace : list Event
}.

Definition with_util (u : UtilVars) (w : World) : World :=
  {| util := u; currentFaceGuidance := currentFaceGuidance w; doc := doc w;
     STATE := STATE w; vars := vars w; timers := timers w; trace := trace w |}.

Definition with_guidance (g : option string) (w : World) : World :=
  {| util := util w; currentFaceGuidance := g; doc := doc w;
     STATE := STATE w; vars := vars w; timers := timers w; trace := trace w |}.

Definition with_doc (d : Document) (w : World) : World :=
  {| util := util w; currentFaceGuidance := currentFaceGuidance w; doc := d;
     STATE := STATE w; vars := vars w; timers := timers w; trace := trace w |}.

Definition with_STATE (f : StateFlags) (w : World) : World :=
  {| util := util w; currentFaceGuidance := currentFaceGuidance w; doc := doc w;
     STATE := f; vars := vars w; timers := timers w; trace := trace w |}.

Definition with_vars (v : IndexVars) (w : World) : World :=
  {| util := util w; currentFaceGuidance := currentFaceGuidance w; doc := doc w;
     STATE := STATE w; vars := v; timers := timers w; trace := trace w |}.

Definition with_timers (t : list (Z * Task)) (w : World) : World :=
  {| util := util w; currentFaceGuidance := currentFaceGuidance w; doc := doc w;
     STATE := STATE w; vars := vars w; timers := t; trace := trace w |}.

(** Append one platform call to the trace. *)
Definition emit (e : Event) (w : World) : World :=
  {| util := util w; currentFaceGuidance := currentFaceGuidance w; doc := doc w;
     STATE := STATE w; vars := vars w; timers := timers w;
     trace := trace w ++ [e] |}.

Definition with_faceStatus (s : option StatusElement) (d : Document) : Document :=
  {| faceStatus := s; takeAndDownloadButton := takeAndDownloadButton d;
     startOverButton := startOverButton d; downloadDisabled := downloadDisabled d;
     photoCanvas := photoCanvas d; capturedPhoto := capturedPhoto d |}.

(** What the browser answers when [speakMessage] consults it. *)
Record SpeechEnv : Type := {
  hasSpeech : bool;      (* 'speechSynthesis' in window *)
  now : Z;               (* Date.now() *)
  speaking : bool;       (* window.speechSynthesis.speaking *)
  paused : bool;         (* window.speechSynthesis.paused *)
  speakThrows : bool     (* speak(utterance) raises *)
}.

(** How a call ends: normally, or with an exception that leaves it. *)
Inductive Completion : Type :=
| Normal (w : World)
| Thrown (w : World) (error : string).

Definition world_of (c : Completion) : World :=
  match c with
  | Normal w => w
  | Thrown w _ => w
  end.

(* ================================================================== *)
(** * [src/shared/util.js] *)
(* ================================================================== *)

Module Util.
Import JS.
Local Open Scope string_scope.
Local Open Scope float_scope.

Record Box : Type := {
  xMin : number;
  yMin : number;
  xMax : number;
  yMax : number
}.

(** A detected face.  The detector always supplies [box]; the guard
    [!face || !face.box] of [getFacePositionGuidance] is about values that
    are no faces, and [drawResults] reads [face.box] before it calls. *)
Record Face : Type := {
  box : Box;
  keypoints : list (number * number)
}.

Definition isFaceCentered (face : Face) (canvasWidth canvasHeight : number) : bool :=
  let box := box face in
  let faceWidth := xMax box - xMin box in
  let faceHeight := yMax box - yMin box in
  let faceCenterX := xMin box + faceWidth / 2 in
  let faceCenterY := yMin box + faceHeight / 2 in
  let canvasCenterX := canvasWidth / 2 in
  let canvasCenterY := canvasHeight / 2 in
  let distanceX := abs (faceCenterX - canvasCenterX) in
  let distanceY := abs (faceCenterY - canvasCenterY) in
  let thresholdX := canvasWidth * 0.15 in
  let thresholdY := canvasHeight * 0.15 in
  (distanceX <=? thresholdX) && (distanceY <=? thresholdY).

Definition CENTERED_ANNOUNCEMENT : string :=
  "Your face is centered. You can take a photo now.".
Definition NOT_CENTERED_ANNOUNCEMENT : string :=
  "Your face is not centered. Please adjust your position.".

Definition speakMessage (message : string) (interrupt : bool)
           (env : SpeechEnv) (w : World) : World :=
  let w := emit (Announce message interrupt) w in
  if negb (hasSpeech env) then
    emit (ConsoleWarn "Speech synthesis not supported in this browser") w
  else
    let now := now env in
    if String.eqb message (lastAnnouncedStatus (util w))
       && (now - lastAnnouncementTime (util w) <? 3000)%Z
    then w
    else
      let w := if interrupt && speaking env then emit SpeechCancel w else w in
      let w := if paused env then emit SpeechResume w else w in
      if speakThrows env then
        emit (ConsoleError "Error speaking message:") w
      else
        let w := emit (SpeechSpeak message) w in
        let w := emit (ConsoleLog ("Speaking message: " ++ message)) w in
        with_util {| lastAnnouncedStatus := message;
                     lastAnnouncementTime := now |} w.

Definition CENTERED_STATUS : string := "Face position: Centered".
Definition NOT_CENTERED_STATUS : string :=
  "Face position: Not centered - Please center your face".
Definition NO_FACE_STATUS : string := "Face position: No face detected".

Definition updateFaceStatus (isCentered : bool) (env : SpeechEnv) (w : World) : World :=
  match faceStatus (doc w) with
  | None => w
  | Some _ =>
    if isCentered then
      let statusMessage := CENTERED_STATUS in
      let w := with_doc (with_faceStatus
                 (Some {| textContent := statusMessage ++ " " ++ check_mark;
                          color := "green" |}) (doc w)) w in
      let w := speakMessage CENTERED_ANNOUNCEMENT true env w in
      match takeAndDownloadButton (doc w) with
      | Some _ => emit (Focus "take-and-download") w
      | None => w
      end
    else
      let statusMessage := NOT_CENTERED_STATUS in
      let w := with_doc (with_faceStatus
                 (Some {| textContent := statusMessage ++ " " ++ cross_mark;
                          color := "red" |}) (doc w)) w in
      match currentFaceGuidance w with
      | Some g =>
        if truthy (Some g) then speakMessage g false env w
        else speakMessage NOT_CENTERED_ANNOUNCEMENT false env w
      | None => speakMessage NOT_CENTERED_ANNOUNCEMENT false env w
      end
  end.

Definition getFacePositionGuidance (face : Face) (canvasWidth canvasHeight : number) : string :=
  let box := box face in
  let faceWidth := xMax box - xMin box in
  let faceHeight := yMax box - yMin box in
  let faceCenterX := xMin box + faceWidth / 2 in
  let faceCenterY := yMin box + faceHeight / 2 in
  let canvasCenterX := canvasWidth / 2 in
  let canvasCenterY := canvasHeight / 2 in
  let distanceX := faceCenterX - canvasCenterX in
  let distanceY := faceCenterY - canvasCenterY in
  let horizontalGuidance :=
    if distanceX <? (- canvasWidth) * 0.1 then "Move right"
    else if gtb distanceX (canvasWidth * 0.1) then "Move left"
    else ""%string in
  let verticalGuidance :=
    if distanceY <? (- canvasHeight) * 0.1 then "Move down"
    else if gtb distanceY (canvasHeight * 0.1) then "Move up"
    else ""%string in
  let idealFaceWidth := canvasWidth * 0.4 in
  let distanceGuidance :=
    if faceWidth <? idealFaceWidth * 0.7 then "Move closer to the camera"
    else if gtb faceWidth (idealFaceWidth * 1.3) then "Move farther from the camera"
    else ""%string in
  let guidanceParts :=
    filter (fun part => negb (String.eqb part ""))
           [horizontalGuidance; verticalGuidance; distanceGuidance] in
  if Nat.eqb (List.length guidanceParts) 0 then
    "Almost centered. Make small adjustments."%string
  else
    (join guidanceParts ". " ++ ".")%string.

(** The bounding-box block of the [faces.forEach] callback.  [env] is
    what the browser answers during this iteration.  Stroking the outline
    of the box changes pixels only and is left out. *)
Definition drawFaceBox (canvasWidth canvasHeight : number) (boundingBox : bool)
           (w : World) (face_env : Face * SpeechEnv) : World :=
  let (face, env) := face_env in
  if boundingBox then
    let centered := isFaceCentered face canvasWidth canvasHeight in
    let w := with_guidance
               (Some (getFacePositionGuidance face canvasWidth canvasHeight)) w in
    updateFaceStatus centered env w
  else w.

(** The key-point loop reads [keypoints[i][0]] for every [i] below
    [NUM_KEYPOINTS]: it throws on a face with fewer key points. *)
Definition lacksKeypoints (NUM_KEYPOINTS : nat) (face : Face) : bool :=
  Nat.ltb (List.length (keypoints face)) NUM_KEYPOINTS.

Definition KEYPOINT_ERROR : string :=
  "TypeError: Cannot read properties of undefined (reading '0')".

(** The body of the [faces.forEach] callback: the bounding-box block, then
    the key-point block.  [NUM_KEYPOINTS] is the constant of [params.js];
    filling the key-point dots changes pixels only. *)
Definition drawFace (NUM_KEYPOINTS : nat) (canvasWidth canvasHeight : number)
           (boundingBox showKeypoints : bool)
           (w : World) (face_env : Face * SpeechEnv) : Completion :=
  let w := drawFaceBox canvasWidth canvasHeight boundingBox w face_env in
  if showKeypoints && lacksKeypoints NUM_KEYPOINTS (fst face_env)
  then Thrown w KEYPOINT_ERROR
  else Normal w.

(** [Array.prototype.forEach]: an exception of the callback ends the
    iteration and leaves it. *)
Fixpoint forEach {A : Type} (callback : World -> A -> Completion)
         (l : list A) (w : World) : Completion :=
  match l with
  | [] => Normal w
  | x :: rest =>
    match callback w x with
    | Normal w => forEach callback rest w
    | Thrown w error => Thrown w error
    end
  end.

(** [drawResults(ctx, faces, boundingBox, showKeypoints)]; the canvas of
    [ctx] is given by its two dimensions, and each face comes with the
    browser's answers at the time it is processed. *)
Definition drawResults (NUM_KEYPOINTS : nat) (canvasWidth canvasHeight : number)
           (faces : list (Face * SpeechEnv))
           (boundingBox showKeypoints : bool) (w : World) : Completion :=
  let w :=
    if Nat.eqb (List.length faces) 0 then
      match faceStatus (doc w) with
      | Some _ =>
        with_doc (with_faceStatus
          (Some {| textContent := NO_FACE_STATUS; color := "orange" |}) (doc w)) w
      | None => w
      end
    else w in
  forEach (drawFace NUM_KEYPOINTS canvasWidth canvasHeight boundingBox showKeypoints)
          faces w.

End Util.

(* ================================================================== *)
(** * [src/index.js] *)
(* ================================================================== *)

Definition with_detector (d : option nat) (v : IndexVars) : IndexVars :=
  {| detector := d; stats := stats v; startInferenceTime := startInferenceTime v;
     numInferences := numInferences v; inferenceTimeSum := inferenceTimeSum v;
     lastPanelUpdate := lastPanelUpdate v;
     canvasWidth := canvasWidth v; canvasHeight := canvasHeight v |}.

Definition with_canvas (cw ch : float) (v : IndexVars) : IndexVars :=
  {| detector := detector v; stats := stats v; startInferenceTime := startInferenceTime v;
     numInferences := numInferences v; inferenceTimeSum := inferenceTimeSum v;
     lastPanelUpdate := lastPanelUpdate v;
     canvasWidth := cw; canvasHeight := ch |}.

Definition with_inference_stats (start num sum last : float) (v : IndexVars) : IndexVars :=
  {| detector := detector v; stats := stats v; startInferenceTime := start;
     numInferences := num; inferenceTimeSum := sum; lastPanelUpdate := last;
     canvasWidth := canvasWidth v; canvasHeight := canvasHeight v |}.

Definition with_takeAndDownloadButton (b : option Button) (d : Document) : Document :=
  {| faceStatus := faceStatus d; takeAndDownloadButton := b;
     startOverButton := startOverButton d; downloadDisabled := downloadDisabled d;
     photoCanvas := photoCanvas d; capturedPhoto := capturedPhoto d |}.

Definition with_startOverButton (b : option Button) (d : Document) : Document :=
  {| faceStatus := faceStatus d; takeAndDownloadButton := takeAndDownloadButton d;
     startOverButton := b; downloadDisabled := downloadDisabled d;
     photoCanvas := photoCanvas d; capturedPhoto := capturedPhoto d |}.

Definition with_downloadDisabled (b : bool) (d : Document) : Document :=
  {| faceStatus := faceStatus d; takeAndDownloadButton := takeAndDownloadButton d;
     startOverButton := startOverButton d; downloadDisabled := b;
     photoCanvas := photoCanvas d; capturedPhoto := capturedPhoto d |}.

Definition with_photo (c : PhotoCanvas) (p : CapturedPhoto) (d : Document) : Document :=
  {| faceStatus := faceStatus d; takeAndDownloadButton := takeAndDownloadButton d;
     startOverButton := startOverButton d; downloadDisabled := downloadDisabled d;
     photoCanvas := c; capturedPhoto := p |}.

Module Index.
Import JS.
Local Open Scope string_scope.

(** What [detector.estimateFaces] does in one frame. *)
Inductive Inference : Type :=
| Faces (faces : list (Util.Face * SpeechEnv))
| Throws (error : string).

(** What the platform answers to [checkGuiUpdate]. *)
Record GuiEnv : Type := {
  newCanvas : float * float;        (* canvas of the camera set up anew *)
  backendThrows : option string;    (* setBackendAndEnvFlags raises *)
  created : nat + string            (* createDetector: a detector, or an error *)
}.

(** What the platform answers during one run of [renderPrediction]. *)
Record FrameEnv : Type := {
  gui : GuiEnv;
  inference : Inference;
  beginTime : float;                (* performance.now() before inference *)
  endTime : float                   (* performance.now() after inference *)
}.

Definition set_flags (fps size model flag backend : bool) (f : StateFlags) : StateFlags :=
  {| isTargetFPSChanged := fps; isSizeOptionChanged := size; isModelChanged := model;
     isFlagChanged := flag; isBackendChanged := backend;
     boundingBox := boundingBox f; keypointsOption := keypointsOption f |}.

Definition checkGuiUpdate (env : GuiEnv) (w : World) : Completion :=
  let w :=
    if isTargetFPSChanged (STATE w) || isSizeOptionChanged (STATE w) then
      let w := with_vars (with_canvas (fst (newCanvas env)) (snd (newCanvas env)) (vars w)) w in
      with_STATE (set_flags false false (isModelChanged (STATE w))
                    (isFlagChanged (STATE w)) (isBackendChanged (STATE w)) (STATE w)) w
    else w in
  if isModelChanged (STATE w) || isFlagChanged (STATE w) || isBackendChanged (STATE w) then
    let w := with_STATE (set_flags (isTargetFPSChanged (STATE w))
               (isSizeOptionChanged (STATE w)) true
               (isFlagChanged (STATE w)) (isBackendChanged (STATE w)) (STATE w)) w in
    let w := emit CancelAnimationFrame w in
    let w := match detector (vars w) with
             | Some d => emit (DetectorDispose d) w
             | None => w
             end in
    let finish (w : World) : Completion :=
      let w := match created env with
               | inl d => with_vars (with_detector (Some d) (vars w)) w
               | inr error =>
                 emit (Alert error) (with_vars (with_detector None (vars w)) w)
               end in
      Normal (with_STATE (set_flags (isTargetFPSChanged (STATE w))
                (isSizeOptionChanged (STATE w)) false false false (STATE w)) w) in
    if isFlagChanged (STATE w) || isBackendChanged (STATE w) then
      match backendThrows env with
      | Some error => Thrown w error
      | None => finish w
      end
    else finish w
  else Normal w.

Definition beginEstimateFaceStats (t : float) (w : World) : World :=
  with_vars (with_inference_stats t (numInferences (vars w))
               (inferenceTimeSum (vars w)) (lastPanelUpdate (vars w)) (vars w)) w.

Definition endEstimateFaceStats (endInferenceTime : float) (w : World) : Completion :=
  let v := vars w in
  let sum := (inferenceTimeSum v + (endInferenceTime - startInferenceTime v))%float in
  let num := (numInferences v + 1)%float in
  let panelUpdateMilliseconds := 1000%float in
  if (panelUpdateMilliseconds <=? endInferenceTime - lastPanelUpdate v)%float then
    let averageInferenceTime := (sum / num)%float in
    let w := with_vars (with_inference_stats (startInferenceTime v) 0 0
                          (lastPanelUpdate v) v) w in
    if stats v then
      let w := emit (StatsPanelUpdate (1000 / averageInferenceTime)%float) w in
      Normal (with_vars (with_inference_stats (startInferenceTime v) 0 0
                           endInferenceTime (vars w)) w)
    else
      Thrown w "TypeError: Cannot read properties of undefined (reading 'customFpsPanel')"
  else
    Normal (with_vars (with_inference_stats (startInferenceTime v) num sum
                         (lastPanelUpdate v) v) w).

(** Modelled from the spec: [camera.js] is not among the sources.  Its
    [drawResults] method is the render-loop driver's hand-over of the
    frame's faces to [Util.drawResults], on the context of the output
    canvas. *)
Definition camera_drawResults (NUM_KEYPOINTS : nat)
           (faces : list (Util.Face * SpeechEnv))
           (boundingBox showKeypoints : bool) (w : World) : Completion :=
  Util.drawResults NUM_KEYPOINTS (canvasWidth (vars w)) (canvasHeight (vars w))
                   faces boundingBox showKeypoints w.

(** The end of [renderResult]: the video frame is drawn, and then the
    faces, if there are any and the model is not being changed; [faces]
    is [None] where the script has [null]. *)
Definition drawFrame (NUM_KEYPOINTS : nat)
           (faces : option (list (Util.Face * SpeechEnv))) (w : World) : Completion :=
  let w := emit DrawCtx w in
  match faces with
  | Some fs =>
    if Nat.ltb 0 (List.length fs) && negb (isModelChanged (STATE w)) then
      camera_drawResults NUM_KEYPOINTS fs
                         (boundingBox (STATE w)) (keypointsOption (STATE w)) w
    else Normal w
  | None => Normal w
  end.

(** [renderResult]; the video is taken to have data (readyState >= 2).
    [NUM_KEYPOINTS] is the constant of [params.js] that [drawResults]
    reads. *)
Definition renderResult (NUM_KEYPOINTS : nat) (env : FrameEnv) (w : World) : Completion :=
  match detector (vars w) with
  | Some d =>
    let w := beginEstimateFaceStats (beginTime env) w in
    let (faces, w) :=
      match inference env with
      | Faces fs => (Some fs, w)
      | Throws error =>
        let w := emit (DetectorDispose d) w in
        let w := with_vars (with_detector None (vars w)) w in
        (None, emit (Alert error) w)
      end in
    match endEstimateFaceStats (endTime env) w with
    | Normal w => drawFrame NUM_KEYPOINTS faces w
    | Thrown w error => Thrown w error
    end
  | None => drawFrame NUM_KEYPOINTS None w
  end.

Definition renderPrediction (NUM_KEYPOINTS : nat) (env : FrameEnv) (w : World)
  : Completion :=
  match checkGuiUpdate (gui env) w with
  | Thrown w error => Thrown w error
  | Normal w =>
    let after :=
      if negb (isModelChanged (STATE w)) then renderResult NUM_KEYPOINTS env w
      else Normal w in
    match after with
    | Thrown w error => Thrown w error
    | Normal w => Normal (emit RequestAnimationFrame w)
    end
  end.

(** The render loop: each run of [renderPrediction] that completes has
    asked for the next one; a run that throws has not, and the loop is
    over. *)
Fixpoint renderLoop (NUM_KEYPOINTS : nat) (frames : list FrameEnv) (w : World)
  : Completion :=
  match frames with
  | [] => Normal w
  | env :: rest =>
    match renderPrediction NUM_KEYPOINTS env w with
    | Normal w => renderLoop NUM_KEYPOINTS rest w
    | Thrown w error => Thrown w error
    end
  end.

(** What the platform answers to a capture action. *)
Record CaptureEnv : Type := {
  speech : bool;            (* 'speechSynthesis' in window *)
  audioContext : bool;      (* window.AudioContext || window.webkitAudioContext *)
  videoFrame : nat;         (* the frame camera.video shows *)
  videoWidth : float;
  videoHeight : float;
  isoString : string;       (* new Date().toISOString() *)
  mobile : bool;            (* the user-agent test *)
  canShare : bool;          (* navigator.canShare || navigator.share *)
  clock : Z                 (* the time, for setTimeout *)
}.

Definition WARNING_MESSAGE : string :=
  "Please center your face before taking a photo. Use the Announce Position button for guidance.".
Definition WARNING_ALERT : string :=
  "Please center your face before taking a photo.".

Definition playShutterSound (env : CaptureEnv) (w : World) : World :=
  if negb (audioContext env) then w else emit Shutter w.

(** [.replace(/[:.]/g, '-')]. *)
Fixpoint replace_colon_dot (s : string) : string :=
  match s with
  | EmptyString => EmptyString
  | String c rest =>
    String (if Ascii.eqb c ":" || Ascii.eqb c "." then "-"%char else c)
           (replace_colon_dot rest)
  end.

Definition statusIsCentered (w : World) : bool :=
  match faceStatus (doc w) with
  | Some statusElement => includes (textContent statusElement) "Centered"
  | None => false
  end.

(** The still image both capture actions draw: the current video frame,
    mirrored, on a canvas of the video's size, shown in [#captured-photo]. *)
Definition drawPhoto (env : CaptureEnv) (w : World) : World :=
  let picture := {| frame := videoFrame env; flipped := true |} in
  with_doc (with_photo
    {| pc_width := videoWidth env; pc_height := videoHeight env;
       pc_content := Some picture |}
    {| src := Some picture; img_display := "block" |} (doc w)) w.

Definition capturePhoto (env : CaptureEnv) (w : World) : World :=
  if statusIsCentered w then
    let w := drawPhoto env w in
    let w := with_doc (with_downloadDisabled false (doc w)) w in
    let w := playShutterSound env w in
    if speech env then
      let w := emit SpeechCancel w in
      emit (SpeechSpeak "Photo captured successfully. You can now download it using the Download Photo button.") w
    else
      emit (Alert "Photo captured successfully!") w
  else
    if speech env then
      let w := emit SpeechCancel w in
      emit (SpeechSpeak WARNING_MESSAGE) w
    else
      emit (Alert WARNING_ALERT) w.

(** [savePhoto(imageUrl, filename)], the inner function of
    [takeAndDownloadPhoto].  Off mobile devices, or without a share
    function, it is [fallbackDownload]: one click on a download link.
    Otherwise the call itself only starts fetching the image, to share it;
    the steps of the promise chain that follow are not part of the call. *)
Definition savePhoto (env : CaptureEnv) (mobile : bool) (filename : string)
           (w : World) : World :=
  if mobile && canShare env then emit (SharePhoto filename) w
  else emit (DownloadPhoto filename) w.

Definition disableAppAndShowStartOver (env : CaptureEnv) (w : World) : World :=
  let w := emit CancelAnimationFrame w in
  let w := match takeAndDownloadButton (doc w) with
           | Some b => with_doc (with_takeAndDownloadButton
                         (Some {| display := "none"; label := label b |}) (doc w)) w
           | None => w
           end in
  let w := match startOverButton (doc w) with
           | None =>
             (* the button is created and appended to the first centered
                div of the container: the status line, where the page has
                one, whose text content then ends with the caption *)
             let w := with_doc (with_startOverButton
                        (Some {| display := ""; label := "Take Another Selfie" |}) (doc w)) w in
             match faceStatus (doc w) with
             | Some statusElement =>
               with_doc (with_faceStatus
                 (Some {| textContent := textContent statusElement ++ "Take Another Selfie";
                          color := color statusElement |}) (doc w)) w
             | None => w
             end
           | Some _ => with_doc (with_startOverButton
                       (Some {| display := "block"; label := "Take Another Selfie" |}) (doc w)) w
           end in
  let w := with_timers (timers w ++ [((clock env + 100)%Z, FocusStartOver)]) w in
  if speech env then
    emit (SpeechSpeak "Photo has been taken and downloaded. Press the Take Another Selfie button to take a new photo.") w
  else w.

Definition takeAndDownloadPhoto (env : CaptureEnv) (w : World) : World :=
  if statusIsCentered w then
    let w := drawPhoto env w in
    let w := with_doc (with_downloadDisabled false (doc w)) w in
    let w := playShutterSound env w in
    let filename := "selfie_" ++ replace_colon_dot (isoString env) ++ ".png" in
    let isMobile := mobile env in
    if speech env then
      let w := emit SpeechCancel w in
      let successMessage :=
        if isMobile then "Photo captured. Saving to gallery."
        else "Photo captured and downloading automatically." in
      let w := emit (SpeechSpeak successMessage) w in
      with_timers (timers w ++ [((clock env + 1500)%Z, SaveAndDisable filename isMobile)]) w
    else
      let w := savePhoto env isMobile filename w in
      let w := emit (Alert (if isMobile then "Photo captured. Saving to gallery."
                            else "Photo captured and downloaded successfully!")) w in
      disableAppAndShowStartOver env w
  else
    if speech env then
      let w := emit SpeechCancel w in
      emit (SpeechSpeak WARNING_MESSAGE) w
    else
      emit (Alert WARNING_ALERT) w.

(** What a queued task does when its timer fires. *)
Definition runTask (env : CaptureEnv) (t : Task) (w : World) : World :=
  match t with
  | SaveAndDisable filename isMobile =>
    disableAppAndShowStartOver env (savePhoto env isMobile filename w)
  | FocusStartOver =>
    match startOverButton (doc w) with
    | Some _ => emit (Focus "start-over") w
    | None => w
    end
  end.

(** The page as [index.html] declares it, before any script has run. *)
Definition initial_document : Document :=
  {| faceStatus := Some {| textContent := "Face position: Waiting for detection...";
                           color := "" |};
     takeAndDownloadButton := Some {| display := ""; label := "Take & Download Photo" |};
     startOverButton := Some {| display := "none"; label := "Take Another Selfie" |};
     downloadDisabled := true;
     photoCanvas := {| pc_width := 300; pc_height := 150; pc_content := None |};
     capturedPhoto := {| src := None; img_display := "none" |} |}.

(** The world when [app] starts the render loop: [isDev] tells whether the
    page runs on localhost (only then is the stats panel set up, and
    [setupUIForEnvironment] shows the capture button inline), [d] is the
    detector created, [cw] and [ch] the size of the output canvas, and
    [bbox], [kp] the display options of [STATE.modelConfig]. *)
Definition initial_world (isDev : bool) (d : nat) (cw ch : float) (bbox kp : bool) : World :=
  {| util := {| lastAnnouncedStatus := ""; lastAnnouncementTime := 0 |};
     currentFaceGuidance := None;
     doc := with_takeAndDownloadButton
              (Some {| display := if isDev then "inline-block" else "block";
                       label := "Take & Download Photo" |})
              initial_document;
     STATE := {| isTargetFPSChanged := false; isSizeOptionChanged := false;
                 isModelChanged := false; isFlagChanged := false;
                 isBackendChanged := false;
                 boundingBox := bbox; keypointsOption := kp |};
     vars := {| detector := Some d; stats := isDev;
                startInferenceTime := 0; numInferences := 0;
                inferenceTimeSum := 0; lastPanelUpdate := 0;
                canvasWidth := cw; canvasHeight := ch |};
     timers := [];
     trace := [] |}.

End Index.

(* ================================================================== *)
(** * Vocabulary of the specification *)
(* ================================================================== *)

Module Spec.
Import JS Util Index.
Local Open Scope string_scope.
Local Open Scope float_scope.

(** Signed offsets of the face-box centre from the frame centre. *)
Definition offsetX (b : Box) (width : number) : number :=
  (xMin b + (xMax b - xMin b) / 2) - width / 2.
Definition offsetY (b : Box) (height : number) : number :=
  (yMin b + (yMax b - yMin b) / 2) - height / 2.

Definition faceWidth (b : Box) : number := xMax b - xMin b.

(** A frame dimension is a size: not negative (and so not NaN). *)
Definition dimension (d : number) : Prop := (0 <=? d) = true.

(** The three clauses of section 4.2, each by its own thresholds. *)
Definition horizontalClause (b : Box) (width : number) : string :=
  if offsetX b width <? - (0.1 * width) then "Move right"
  else if gtb (offsetX b width) (0.1 * width) then "Move left"
  else "".
Definition verticalClause (b : Box) (height : number) : string :=
  if offsetY b height <? - (0.1 * height) then "Move down"
  else if gtb (offsetY b height) (0.1 * height) then "Move up"
  else "".
Definition distanceClause (b : Box) (width : number) : string :=
  if faceWidth b <? 0.7 * (0.4 * width) then "Move closer to the camera"
  else if gtb (faceWidth b) (1.3 * (0.4 * width)) then "Move farther from the camera"
  else "".

Definition FALLBACK : string := "Almost centered. Make small adjustments.".

(** Non-empty clauses joined with ". " and closed by a period; the
    fallback when there is none. *)
Definition composeGuidance (clauses : list string) : string :=
  match filter (fun c => negb (String.eqb c "")) clauses with
  | [] => FALLBACK
  | parts => (String.concat ". " parts ++ ".")%string
  end.

(** The texts handed to [speechSynthesis.speak], oldest first. *)
Fixpoint spoken (t : list Event) : list string :=
  match t with
  | [] => []
  | SpeechSpeak text :: rest => text :: spoken rest
  | _ :: rest => spoken rest
  end.

(** The calls of the announcement throttle, oldest first. *)
Fixpoint announcements (t : list Event) : list (string * bool) :=
  match t with
  | [] => []
  | Announce message interrupt :: rest => (message, interrupt) :: announcements rest
  | _ :: rest => announcements rest
  end.

(** Speech is available: the capability exists and [speak] works. *)
Definition speechAvailable (env : SpeechEnv) : Prop :=
  hasSpeech env = true /\ speakThrows env = false.

(** The announcement record. *)
Definition record (message : string) (time : Z) : UtilVars :=
  {| lastAnnouncedStatus := message; lastAnnouncementTime := time |}.

(** The visible status text, if the page has a status line. *)
Definition statusText (w : World) : option string :=
  option_map textContent (faceStatus (doc w)).

Definition INITIAL_STATUS : string := "Face position: Waiting for detection...".

(** The status line of a face that is centered, or is not. *)
Definition statusLine (isCentered : bool) : StatusElement :=
  if isCentered
  then {| textContent := (CENTERED_STATUS ++ " " ++ check_mark)%string; color := "green" |}
  else {| textContent := (NOT_CENTERED_STATUS ++ " " ++ cross_mark)%string; color := "red" |}.

(** The status line lacks the word that permits a capture. *)
Definition statusLacksCentered (w : World) : Prop :=
  match faceStatus (doc w) with
  | Some statusElement => includes (textContent statusElement) "Centered" = false
  | None => True
  end.

(** The two capture actions. *)
Definition captureActions : list (CaptureEnv -> World -> World) :=
  [capturePhoto; takeAndDownloadPhoto].

(** The corrective message of a refused capture: spoken, or shown in an
    alert where speech does not exist. *)
Definition corrective (env : CaptureEnv) : list Event :=
  if speech env then [SpeechCancel; SpeechSpeak WARNING_MESSAGE]
  else [Alert WARNING_ALERT].

(** The platform calls made between two worlds. *)
Definition new_events (w w' : World) : list Event :=
  skipn (List.length (trace w)) (trace w').

(** What the throttle receives for one face. *)
Definition announcementFor (face : Face) (width height : number) : string * bool :=
  if isFaceCentered face width height then (CENTERED_ANNOUNCEMENT, true)
  else (getFacePositionGuidance face width height, false).

(** What section 4.4 has the throttle receive in a frame: one call, for the
    first face, which interrupts when that face is centered, or when it is
    not and the frame before was centered. *)
Definition claimedAnnouncements (wasCentered : bool)
           (faces : list (Face * SpeechEnv)) (width height : number)
  : list (string * bool) :=
  match faces with
  | [] => []
  | (face, _) :: _ =>
    if isFaceCentered face width height then [(CENTERED_ANNOUNCEMENT, true)]
    else [(getFacePositionGuidance face width height, wasCentered)]
  end.

(** The faces of a frame that [drawResults] gets to: all of them, or,
    with key points shown, those up to and including the first that has
    fewer than [NUM_KEYPOINTS] key points. *)
Fixpoint processed (NUM_KEYPOINTS : nat) (showKeypoints : bool)
         (faces : list (Face * SpeechEnv)) : list (Face * SpeechEnv) :=
  match faces with
  | [] => []
  | fe :: rest =>
    if showKeypoints && lacksKeypoints NUM_KEYPOINTS (fst fe) then [fe]
    else fe :: processed NUM_KEYPOINTS showKeypoints rest
  end.

(** Key points are shown and a face of the frame has too few of them. *)
Definition keypointsMissing (NUM_KEYPOINTS : nat) (showKeypoints : bool)
           (faces : list (Face * SpeechEnv)) : bool :=
  showKeypoints && existsb (fun fe => lacksKeypoints NUM_KEYPOINTS (fst fe)) faces.

(** No option of the GUI has changed since the last frame. *)
Definition gui_unchanged (w : World) : Prop :=
  isTargetFPSChanged (STATE w) = false /\ isSizeOptionChanged (STATE w) = false /\
  isModelChanged (STATE w) = false /\ isFlagChanged (STATE w) = false /\
  isBackendChanged (STATE w) = false.

End Spec.

(* ================================================================== *)
(** * Binary64 arithmetic: definitions for the rounding lemmas *)
(* ================================================================== *)

Module Binary64.
Local Open Scope Z_scope.

(** What [k] right shifts have made of the mantissa [M]. *)
Definition shifted (M : Z) (k : Z) (mrs : shr_record) : Prop :=
  shr_m mrs = M / 2 ^ k /\
  (M mod 2 ^ k = 0 -> shr_r mrs = false /\ shr_s mrs = false).

(** The float made of a rounded mantissa [m <= 2^53] at exponent [e]. *)
Definition pack (m e : Z) : spec_float :=
  match m with
  | Z0 => S754_zero false
  | Zpos p =>
    if Zpos p <? 2 ^ 53 then
      if e <=? 971 then S754_finite false p e else S754_infinity false
    else
      if e + 1 <=? 971 then S754_finite false (2 ^ 52)%positive (e + 1)
      else S754_infinity false
  | Zneg _ => S754_nan
  end.

(** An integer that orders valid floats as their values do: the value
    scaled by 2^1074, and beyond every finite one for the infinities. *)
Definition huge : Z := 2 ^ 2200.
Definition ival (f : spec_float) : Z :=
  match f with
  | S754_zero _ | S754_nan => 0
  | S754_infinity s => if s then - huge else huge
  | S754_finite s m e =>
    if s then - (Zpos m * 2 ^ (e + 1074)) else Zpos m * 2 ^ (e + 1074)
  end.

(** Not negative: a zero of either sign, a positive number, or NaN. *)
Definition SFnonneg (f : spec_float) : Prop :=
  match f with
  | S754_zero _ | S754_nan => True
  | S754_infinity s | S754_finite s _ _ => s = false
  end.

End Binary64.

(* ================================================================== *)
(** * Concrete inputs *)
(* ================================================================== *)

Module Example.
Import JS Util Index.
Local Open Scope string_scope.

(** A face in the middle of a 640 x 480 frame, 256 pixels wide. *)
Definition centred_face : Face :=
  {| box := {| xMin := 192%float; yMin := 120%float;
               xMax := 448%float; yMax := 360%float |};
     keypoints := [] |}.

(** The same face at the left edge of the frame. *)
Definition left_face : Face :=
  {| box := {| xMin := 0%float; yMin := 120%float;
               xMax := 256%float; yMax := 360%float |};
     keypoints := [] |}.

(** A face whose centre lies 96 pixels right of and 72 pixels below the
    centre of the frame: on both thresholds, 120 pixels away. *)
Definition corner_face : Face :=
  {| box := {| xMin := 288%float; yMin := 192%float;
               xMax := 544%float; yMax := 432%float |};
     keypoints := [] |}.

(** A browser that can speak and is speaking at time [t]. *)
Definition speaking_at (t : Z) : SpeechEnv :=
  {| hasSpeech := true; now := t; speaking := true; paused := false;
     speakThrows := false |}.

(** The page on localhost ([dev]) or deployed, with detector 0. *)
Definition page (dev : bool) : World := initial_world dev 0 640 480 true false.

Definition no_gui_change : GuiEnv :=
  {| newCanvas := (640%float, 480%float); backendThrows := None; created := inl 1 |}.

Definition frame_with (i : Inference) (t0 t1 : float) : FrameEnv :=
  {| gui := no_gui_change; inference := i; beginTime := t0; endTime := t1 |}.

Definition desktop : CaptureEnv :=
  {| speech := true; audioContext := true; videoFrame := 7;
     videoWidth := 640; videoHeight := 480;
     isoString := "2025-01-01T00:00:00.000Z"; mobile := false; canShare := false;
     clock := 20000 |}.

End Example.

(* ================================================================== *)
(** * [src/index.js]: reset, download and the announce-position handler *)
(* ================================================================== *)

Module IndexActions.
Import JS Index.
Local Open Scope string_scope.

(** [startOver]. *)
Definition startOver (env : CaptureEnv) (w : World) : World :=
  let w := with_doc (with_photo (photoCanvas (doc w))
             {| src := src (capturedPhoto (doc w)); img_display := "none" |} (doc w)) w in
  let w := match takeAndDownloadButton (doc w) with
           | Some b => with_doc (with_takeAndDownloadButton
                         (Some {| display := "block"; label := label b |}) (doc w)) w
           | None => w
           end in
  let w := match startOverButton (doc w) with
           | Some b => with_doc (with_startOverButton
                         (Some {| display := "none"; label := label b |}) (doc w)) w
           | None => w
           end in
  let w := emit RequestAnimationFrame w in
  if speech env then
    emit (SpeechSpeak "App restarted. You can now take a new photo.") w
  else w.

(** What the platform answers to [downloadPhoto]. *)
Record ShareEnv : Type := {
  s_isoString : string;     (* new Date().toISOString() *)
  s_mobile : bool;          (* the user-agent test *)
  hasCanShare : bool;       (* navigator.canShare is there *)
  hasShare : bool;          (* navigator.share is there *)
  fetchResolves : bool;     (* fetch(imageUrl) and res.blob() resolve *)
  canShareFiles : bool;     (* navigator.canShare({files: [file]}) *)
  shareResolves : bool      (* the promise of navigator.share resolves *)
}.

(** The calls [downloadPhoto] makes, in order. *)
Inductive SaveCall : Type :=
| FetchImage (picture : option Picture)
| ShareFiles (filename title : string)
| ShareUrl (picture : option Picture) (title : string)
| LogShared
| LogShareError
| LinkClick (filename : string) (picture : option Picture).

(** [fallbackDownload(imageUrl, filename)]: a link to the image is added to
    the body, clicked and removed. *)
Definition fallbackDownload (picture : option Picture) (filename : string) : list SaveCall :=
  [LinkClick filename picture].

(** [downloadPhoto]; [#photo-canvas] is on the page.  The image is what
    the canvas holds when the button is pressed.  A promise that rejects
    with no handler ends the chain: nothing more is called. *)
Definition downloadPhoto (env : ShareEnv) (d : Document) : list SaveCall :=
  let filename := "selfie_" ++ replace_colon_dot (s_isoString env) ++ ".png" in
  let imageUrl := pc_content (photoCanvas d) in
  let isMobile := s_mobile env in
  if isMobile && (hasCanShare env || hasShare env) then
    FetchImage imageUrl ::
    (if negb (fetchResolves env) then []
     else if hasCanShare env && canShareFiles env then
       if negb (hasShare env) then []      (* navigator.share is not a function *)
       else
         ShareFiles filename "Selfie" ::
         (if shareResolves env then [LogShared]
          else LogShareError :: fallbackDownload imageUrl filename)
     else if hasShare env then
       ShareUrl imageUrl "Selfie" ::
       (if shareResolves env then [LogShared]
        else LogShareError :: fallbackDownload imageUrl filename)
     else fallbackDownload imageUrl filename)
  else fallbackDownload imageUrl filename.

(** [String.prototype.replace] with a string pattern: the first occurrence
    only. *)
Fixpoint replace_first (hay needle replacement : string) : string :=
  if String.prefix needle hay then
    replacement ++ substring (String.length needle)
                             (String.length hay - String.length needle) hay
  else
    match hay with
    | EmptyString => EmptyString
    | String c rest => String c (replace_first rest needle replacement)
    end.

Definition bytes (l : list nat) : string :=
  string_of_list_ascii (map ascii_of_nat l).

(** White space and line terminators of ECMAScript, in UTF-8. *)
Definition WHITE_SPACE : list string :=
  map bytes
      [[9]; [10]; [11]; [12]; [13]; [32]; [194; 160]; [225; 154; 128];
       [226; 128; 128]; [226; 128; 129]; [226; 128; 130]; [226; 128; 131];
       [226; 128; 132]; [226; 128; 133]; [226; 128; 134]; [226; 128; 135];
       [226; 128; 136]; [226; 128; 137]; [226; 128; 138]; [226; 128; 168];
       [226; 128; 169]; [226; 128; 175]; [226; 129; 159]; [227; 128; 128];
       [239; 187; 191]].

Definition reverse (s : string) : string :=
  string_of_list_ascii (rev (list_ascii_of_string s)).

(** The rest of [s] after one leading white-space character out of [ws]. *)
Fixpoint strip_one (ws : list string) (s : string) : option string :=
  match ws with
  | [] => None
  | x :: ws' =>
    if String.prefix x s
    then Some (substring (String.length x) (String.length s - String.length x) s)
    else strip_one ws' s
  end.

Fixpoint trimStart_with (ws : list string) (fuel : nat) (s : string) : string :=
  match fuel with
  | O => s
  | S fuel' =>
    match strip_one ws s with
    | Some rest => trimStart_with ws fuel' rest
    | None => s
    end
  end.

(** [String.prototype.trim]. *)
Definition trim (s : string) : string :=
  let s := trimStart_with WHITE_SPACE (String.length s) s in
  reverse (trimStart_with (map reverse WHITE_SPACE) (String.length s) (reverse s)).

Definition TAKE_PHOTO_HINT : string :=
  ". You can now take a photo by pressing the Take Photo button in the middle of the screen.".

(** The click handler of [#announce-position]; [speech] tells whether the
    browser has speech synthesis. *)
Definition announcePosition (speech : bool) (w : World) : World :=
  match faceStatus (doc w) with
  | None => w
  | Some statusElement =>
    let statusText :=
      trim (replace_first (replace_first (textContent statusElement) check_mark "")
                          cross_mark "") in
    let message := statusText in
    let message :=
      match currentFaceGuidance w with
      | Some g => if truthy (Some g) then message ++ ". " ++ g else message
      | None => message
      end in
    let message :=
      if includes statusText "Centered" then message ++ TAKE_PHOTO_HINT else message in
    if speech then emit (SpeechSpeak message) (emit SpeechCancel w) else w
  end.

(** [/.../i.test(s)] for a pattern that is an alternation of plain words:
    one of the words occurs in [s], letters compared without case. *)
Definition lower (c : ascii) : ascii :=
  let n := nat_of_ascii c in
  if Nat.leb 65 n && Nat.leb n 90 then ascii_of_nat (n + 32) else c.

Fixpoint lowercase (s : string) : string :=
  match s with
  | EmptyString => EmptyString
  | String c rest => String (lower c) (lowercase rest)
  end.

Definition test_words (words : list string) (s : string) : bool :=
  existsb (fun word => includes (lowercase s) (lowercase word)) words.

(** The user-agent test of [downloadPhoto] and [takeAndDownloadPhoto]. *)
Definition userAgentIsMobile (userAgent : string) : bool :=
  test_words ["Android"; "webOS"; "iPhone"; "iPad"; "iPod"; "BlackBerry";
              "IEMobile"; "Opera Mini"] userAgent.

End IndexActions.

(* ================================================================== *)
(** * [src/shared/util.js]: platform tests and backend set-up *)
(* ================================================================== *)

Module UtilBackend.
Import JS IndexActions.
Local Open Scope string_scope.

Definition isiOS (userAgent : string) : bool :=
  test_words ["iPhone"; "iPad"; "iPod"] userAgent.

Definition isAndroid (userAgent : string) : bool :=
  test_words ["Android"] userAgent.

Definition isMobile (userAgent : string) : bool :=
  isAndroid userAgent || isiOS userAgent.

(** The value of an environment flag. *)
Inductive FlagValue : Type :=
| VBool (b : bool)
| VNumber (x : float)
| VString (s : string).

(** [===] on flag values. *)
Definition strict_equal (a b : FlagValue) : bool :=
  match a, b with
  | VBool x, VBool y => Bool.eqb x y
  | VNumber x, VNumber y => PrimFloat.eqb x y
  | VString x, VString y => String.eqb x y
  | _, _ => false
  end.

(** What a caller may pass as [flagConfig]. *)
Inductive FlagConfig : Type :=
| ConfigNullish                                   (* null or undefined *)
| ConfigOther (typeName : string)                 (* typeof is not 'object' *)
| ConfigObject (entries : list (string * FlagValue)).

(** [key in object] and [object[key]] on an object given by its entries. *)
Fixpoint lookup {A : Type} (key : string) (entries : list (string * A)) : option A :=
  match entries with
  | [] => None
  | (k, v) :: rest => if String.eqb k key then Some v else lookup key rest
  end.

(** [Array.prototype.indexOf(value) === -1] is the negation of this. *)
Definition indexOf_finds (range : list FlagValue) (value : FlagValue) : bool :=
  existsb (fun candidate => strict_equal candidate value) range.

(** [String.prototype.split] with a one-character separator. *)
Fixpoint split_on (sep : ascii) (s : string) : list string :=
  match s with
  | EmptyString => [EmptyString]
  | String c rest =>
    if Ascii.eqb c sep then EmptyString :: split_on sep rest
    else
      match split_on sep rest with
      | [] => [String c EmptyString]
      | piece :: pieces => String c piece :: pieces
      end
  end.

(** Calls made to TensorFlow.js and to the page. *)
Inductive TfCall : Type :=
| SetFlags (entries : list (string * FlagValue))
| RemoveBackend (name : string)
| RegisterBackend (name : string)
| SetBackend (name : string)
| TfAlert (text : string)
| ShowBackendConfigs.

(** [STATE.backend], [STATE.lastTFJSBackend] and the calls made. *)
Record BackendState : Type := {
  backend : string;
  lastTFJSBackend : option string;
  calls : list TfCall
}.

(** What the engine of TensorFlow.js answers to [resetBackend]. *)
Record EngineEnv : Type := {
  inRegistryFactory : string -> bool;    (* name in ENGINE.registryFactory *)
  inRegistry : string -> bool            (* name in ENGINE.registry *)
}.

(** The errors the two functions throw. *)
Inductive TfError : Type :=
| NotAnObject (typeName : string)        (* An object is expected ... *)
| NotTunable (flag : string)             (* ... is not a tunable or valid environment flag. *)
| OutOfRange (flag : string)             (* ... value is expected to be in the range ... *)
| NoIndexOf (flag : string)              (* TypeError: ....indexOf is not a function *)
| NotRegistered (name : string).         (* ... backend is not registered. *)

Inductive Outcome : Type :=
| Returns (s : BackendState)
| Raises (s : BackendState) (error : TfError).

Definition state_of (o : Outcome) : BackendState :=
  match o with
  | Returns s => s
  | Raises s _ => s
  end.

Definition call (c : TfCall) (s : BackendState) : BackendState :=
  {| backend := backend s; lastTFJSBackend := lastTFJSBackend s;
     calls := calls s ++ [c] |}.

(** A value spliced into a template string. *)
Definition template (name : option string) : string :=
  match name with
  | Some s => s
  | None => "undefined"
  end.

Definition WEBGPU_ALERT : string :=
  "webgpu backend is not registered. Your browser may not support WebGPU yet. To test this backend, please use a supported browser, e.g. Chrome canary with --enable-unsafe-webgpu flag".

(** [resetBackend(backendName)]; [backendName] is undefined when the
    backend string has no second piece.  [tf.setBackend] is taken to
    resolve. *)
Definition resetBackend (engine : EngineEnv) (backendName : option string)
           (s : BackendState) : Outcome :=
  if negb (inRegistryFactory engine (template backendName)) then
    if match backendName with Some n => String.eqb n "webgpu" | None => false end then
      let s := call (TfAlert WEBGPU_ALERT) s in
      let s := {| backend := if truthy (lastTFJSBackend s)
                             then template (lastTFJSBackend s) else "tfjs-webgl";
                  lastTFJSBackend := lastTFJSBackend s; calls := calls s |} in
      Returns (call ShowBackendConfigs s)
    else
      Raises s (NotRegistered (template backendName))
  else
    let s := if inRegistry engine (template backendName) then
               call (RegisterBackend (template backendName))
                    (call (RemoveBackend (template backendName)) s)
             else s in
    let s := call (SetBackend (template backendName)) s in
    Returns {| backend := backend s;
               lastTFJSBackend := Some ("tfjs-" ++ template backendName);
               calls := calls s |}.

(** The names every object literal inherits from [Object.prototype]: for
    these [flag in map] holds although the map has no range for them. *)
Definition INHERITED : list string :=
  ["constructor"; "hasOwnProperty"; "isPrototypeOf"; "propertyIsEnumerable";
   "toLocaleString"; "toString"; "valueOf"; "__proto__"; "__defineGetter__";
   "__defineSetter__"; "__lookupGetter__"; "__lookupSetter__"].

(** The validation loop: the error thrown for the first flag, in the order
    of the entries, that does not pass. *)
Fixpoint first_invalid (ranges : list (string * list FlagValue))
         (entries : list (string * FlagValue)) : option TfError :=
  match entries with
  | [] => None
  | (flag, value) :: rest =>
    match lookup flag ranges with
    | None =>
      if existsb (String.eqb flag) INHERITED then Some (NoIndexOf flag)
      else Some (NotTunable flag)
    | Some range =>
      if negb (indexOf_finds range value) then Some (OutOfRange flag)
      else first_invalid ranges rest
    end
  end.

(** [setBackendAndEnvFlags(flagConfig, backend)].  [ranges] is
    [TUNABLE_FLAG_VALUE_RANGE_MAP] of [params.js]. *)
Definition setBackendAndEnvFlags (ranges : list (string * list FlagValue))
           (engine : EngineEnv) (flagConfig : FlagConfig) (backendString : string)
           (s : BackendState) : Outcome :=
  match flagConfig with
  | ConfigNullish => Returns s
  | ConfigOther typeName => Raises s (NotAnObject typeName)
  | ConfigObject entries =>
    match first_invalid ranges entries with
    | Some error => Raises s error
    | None =>
      let s := call (SetFlags entries) s in
      match split_on "-" backendString with
      | runtime :: pieces =>
        if String.eqb runtime "tfjs" then resetBackend engine (hd_error pieces) s
        else Returns s
      | [] => Returns s
      end
    end
  end.

End UtilBackend.

(* ================================================================== *)
(** * Vocabulary for the further properties *)
(* ================================================================== *)

Module Observe.
Import JS Util Index IndexActions Spec.
Local Open Scope string_scope.

(** One call of the throttle: message, interrupt flag, browser answers. *)
Definition Call : Type := (string * bool * SpeechEnv)%type.

Definition announce (w : World) (c : Call) : World :=
  speakMessage (fst (fst c)) (snd (fst c)) (snd c) w.

(** The calls among [calls], made one after the other from [w], that
    handed their message to the synthesizer, each with its time. *)
Fixpoint emissions (calls : list Call) (w : World) : list (string * Z) :=
  match calls with
  | [] => []
  | c :: rest =>
    let w' := announce w c in
    (if Nat.eqb (List.length (spoken (trace w'))) (List.length (spoken (trace w)))
     then [] else [(fst (fst c), now (snd c))])
    ++ emissions rest w'
  end.

(** Each entry that repeats the message right before it comes 3000 ms or
    more after it. *)
Fixpoint spaced (previous : string * Z) (l : list (string * Z)) : Prop :=
  match l with
  | [] => True
  | entry :: rest =>
    (fst entry = fst previous -> (3000 <= snd entry - snd previous)%Z) /\
    spaced entry rest
  end.

(** A number that is not NaN. *)
Definition isNumber (x : number) : Prop := PrimFloat.eqb x x = true.

(** A frame dimension of at least one pixel. *)
Definition pixels (d : number) : Prop := PrimFloat.leb 1 d = true.

(** The guidance names a direction to move in. *)
Definition namesDirection (g : string) : bool :=
  includes g "Move right" || includes g "Move left" ||
  includes g "Move down" || includes g "Move up".

(** The file names handed to a share or a download, oldest first. *)
Fixpoint saves (t : list Event) : list string :=
  match t with
  | [] => []
  | SharePhoto filename :: rest => filename :: saves rest
  | DownloadPhoto filename :: rest => filename :: saves rest
  | _ :: rest => saves rest
  end.

(** The file name of a photo taken at the time [iso]. *)
Definition photoName (iso : string) : string :=
  "selfie_" ++ replace_colon_dot iso ++ ".png".

(** The calls of [downloadPhoto] that deliver the photo. *)
Definition delivers (c : SaveCall) : bool :=
  match c with
  | LogShared | LinkClick _ _ => true
  | _ => false
  end.

(** Two documents that differ in the status line at most. *)
Definition same_but_status (d d' : Document) : Prop :=
  d' = with_faceStatus (faceStatus d') d.


(** A page whose markup has no [#face-status] element. *)
Definition page_without_status : World :=
  with_doc (with_faceStatus None initial_document) (Example.page true).

(** The frame dereferences the stats panel although it was never set up:
    it runs inference, and 1000 ms or more have passed since the last
    panel update. *)
Definition panelMissing (env : FrameEnv) (w : World) : bool :=
  match detector (vars w) with
  | Some _ =>
    negb (stats (vars w)) &&
    PrimFloat.leb 1000 (PrimFloat.sub (endTime env) (lastPanelUpdate (vars w)))
  | None => false
  end.

(** The faces [renderResult] hands to [drawResults] in this frame. *)
Definition facesDrawn (env : FrameEnv) (w : World) : list (Util.Face * SpeechEnv) :=
  match detector (vars w), inference env with
  | Some _, Faces fs => if isModelChanged (STATE w) then [] else fs
  | _, _ => []
  end.

(** The tasks a capture action has queued between [w] and [w'], run in
    order from [w']. *)
Definition run_queued (env : CaptureEnv) (w w' : World) : World :=
  fold_left (fun w t => runTask env (snd t) w)
            (skipn (List.length (timers w)) (timers w')) w'.


(** A flag that is tunable, with a value in its range. *)
Definition in_range (ranges : list (string * list UtilBackend.FlagValue))
           (entry : string * UtilBackend.FlagValue) : Prop :=
  exists range, UtilBackend.lookup (fst entry) ranges = Some range /\
                UtilBackend.indexOf_finds range (snd entry) = true.

End Observe.

(* ================================================================== *)
(** * Further concrete inputs *)
(* ================================================================== *)

Module Inputs.
Import JS Util Index IndexActions UtilBackend Example.
Local Open Scope string_scope.

(** The page after one frame with a centered face. *)
Definition centred_page : World :=
  world_of (renderResult 6 (frame_with (Faces [(centred_face, speaking_at 10000)]) 400 420)
                         (page true)).

(** A browser that can speak, whose [speak] throws at time [t]. *)
Definition failing_at (t : Z) : SpeechEnv :=
  {| hasSpeech := true; now := t; speaking := true; paused := false;
     speakThrows := true |}.

(** A phone that can share files, where the share is turned down. *)
Definition phone : ShareEnv :=
  {| s_isoString := "2025-01-01T00:00:05.250Z"; s_mobile := true;
     hasCanShare := true; hasShare := true; fetchResolves := true;
     canShareFiles := true; shareResolves := false |}.

(** Two tunable flags with their ranges. *)
Definition flag_ranges : list (string * list FlagValue) :=
  [("WEBGL_VERSION", [VNumber 1; VNumber 2]);
   ("WEBGL_PACK", [VBool true; VBool false])].

(** An engine that knows webgl and cpu, with webgl in use. *)
Definition webgl_engine : EngineEnv :=
  {| inRegistryFactory := fun name => String.eqb name "webgl" || String.eqb name "cpu";
     inRegistry := fun name => String.eqb name "webgl" |}.

Definition fresh_backend : BackendState :=
  {| backend := "tfjs-webgl"; lastTFJSBackend := None; calls := [] |}.

End Inputs.

(* ================================================================== *)
(** * Binary64 arithmetic: what rounding does to a product *)
(* ================================================================== *)

Section Rounding.
Import Binary64.
Local Open Scope Z_scope.

Lemma digits2_pos_bounds (m : positive) :
  2 ^ (Zpos (digits2_pos m) - 1) <= Zpos m < 2 ^ Zpos (digits2_pos m).
Proof.
  induction m as [m IH|m IH|]; cbn [digits2_pos];
    [rewrite Pos2Z.inj_succ | rewrite Pos2Z.inj_succ | simpl; lia];
    replace (Z.succ (Zpos (digits2_pos m)) - 1)
      with (Z.succ (Zpos (digits2_pos m) - 1)) by lia;
    rewrite !Z.pow_succ_r by lia;
    generalize dependent (2 ^ (Zpos (digits2_pos m) - 1));
    generalize (2 ^ Zpos (digits2_pos m)); intros; lia.
Qed.

Lemma iter_pos_invariant {A : Type} (f : A -> A) (P : Z -> A -> Prop) :
  (forall k x, 0 <= k -> P k x -> P (k + 1) (f x)) ->
  forall p k x, 0 <= k -> P k x -> P (k + Zpos p) (SpecFloat.iter_pos f p x).
Proof.
  intros step; induction p as [p IH|p IH|]; intros k x Hk HP; cbn [SpecFloat.iter_pos].
  - replace (k + Zpos p~1) with (k + 1 + Zpos p + Zpos p) by lia.
    apply IH; [lia|]. apply IH; [lia|]. now apply step.
  - replace (k + Zpos p~0) with (k + Zpos p + Zpos p) by lia.
    apply IH; [lia|]. now apply IH.
  - now apply step.
Qed.

Lemma shr_1_shifted (M k : Z) (mrs : shr_record) :
  0 <= M -> 0 <= k -> shifted M k mrs -> shifted M (k + 1) (shr_1 mrs).
Proof.
  intros HM Hk [Hm Hrs].
  assert (Hpow : 2 ^ (k + 1) = 2 ^ k * 2) by (rewrite Z.pow_add_r by lia; reflexivity).
  assert (Hpos : 0 < 2 ^ k) by (apply Z.pow_pos_nonneg; lia).
  assert (Hdiv : M / 2 ^ (k + 1) = (M / 2 ^ k) / 2)
    by (rewrite Hpow, Z.div_div by lia; reflexivity).
  assert (Hq : 0 <= M / 2 ^ k) by (apply Z.div_pos; lia).
  assert (Hexact : M mod 2 ^ (k + 1) = 0 ->
                   M mod 2 ^ k = 0 /\ (M / 2 ^ k) mod 2 = 0).
  { intros H0. rewrite Hpow, Z.rem_mul_r in H0 by lia.
    pose proof (Z.mod_pos_bound M (2 ^ k) Hpos).
    pose proof (Z.mod_pos_bound (M / 2 ^ k) 2 ltac:(lia)). nia. }
  destruct mrs as [m r s]; cbn [shr_m shr_r shr_s] in *.
  unfold shifted. rewrite Hdiv, <- Hm.
  destruct m as [|[p|p|]|[p|p|]]; cbn [shr_1 shr_m shr_r shr_s]; try lia.
  - split; [reflexivity|]. intros H0. destruct (Hexact H0) as [H1 _].
    destruct (Hrs H1) as [-> ->]. auto.
  - split; [apply Z.div_unique with 1; lia|].
    intros H0. destruct (Hexact H0) as [_ H2]. rewrite <- Hm in H2.
    pose proof (Z.mod_pos_bound (Zpos p~1) 2 ltac:(lia)).
    pose proof (Z.div_mod (Zpos p~1) 2 ltac:(lia)). lia.
  - split; [apply Z.div_unique with 0; lia|].
    intros H0. destruct (Hexact H0) as [H1 _]. destruct (Hrs H1) as [-> ->]. auto.
  - split; [reflexivity|].
    intros H0. destruct (Hexact H0) as [_ H2]. rewrite <- Hm in H2. discriminate.
Qed.

Lemma shr_shifted (M e n : Z) :
  0 <= M ->
  let res := shr (Build_shr_record M false false) e n in
  shifted M (Z.max n 0) (fst res) /\ snd res = e + Z.max n 0.
Proof.
  intros HM. unfold shr.
  assert (H0 : shifted M 0 (Build_shr_record M false false)).
  { split; cbn; [now rewrite Z.div_1_r | auto]. }
  destruct n as [|p|p]; cbn [fst snd].
  - split; [exact H0 | lia].
  - split; [|lia]. replace (Z.max (Zpos p) 0) with (0 + Zpos p) by lia.
    apply iter_pos_invariant with (P := shifted M); [|lia|exact H0].
    intros k x Hk. now apply shr_1_shifted.
  - split; [exact H0 | lia].
Qed.

Lemma round_nearest_even_bounds (mrs : shr_record) :
  let m := round_nearest_even (shr_m mrs) (loc_of_shr_record mrs) in
  shr_m mrs <= m <= shr_m mrs + 1 /\
  (shr_r mrs = false /\ shr_s mrs = false -> m = shr_m mrs).
Proof.
  destruct mrs as [m [|] [|]]; cbn; try destruct (Z.even m); split; try lia;
    intros [? ?]; congruence.
Qed.

Lemma fexp64 (e : Z) : fexp prec emax e = Z.max (e - 53) (-1074).
Proof. reflexivity. Qed.

Lemma binary_round_aux_spec (M : positive) (E : Z) :
  let e1 := Z.max E (fexp prec emax (Zpos (digits2_pos M) + E)) in
  let q := Zpos M / 2 ^ (e1 - E) in
  exists m,
    q <= m <= q + 1 /\ (Zpos M mod 2 ^ (e1 - E) = 0 -> m = q) /\ m <= 2 ^ 53 /\
    binary_round_aux prec emax false (Zpos M) E loc_Exact = pack m e1.
Proof.
  intros e1 q. unfold binary_round_aux, shr_fexp.
  cbn [shr_record_of_loc Zdigits2].
  set (n := fexp prec emax (Zpos (digits2_pos M) + E) - E).
  assert (Hn : Z.max n 0 = e1 - E) by (unfold n, e1; lia).
  destruct (shr_shifted (Zpos M) E n ltac:(lia)) as [[Hm Hrs] He].
  destruct (shr (Build_shr_record (Zpos M) false false) E n) as [mrs' e'].
  cbn [fst snd] in *. rewrite Hn in *.
  destruct (round_nearest_even_bounds mrs') as [Hb Hex]. cbv zeta in Hb, Hex.
  set (m := round_nearest_even (shr_m mrs') (loc_of_shr_record mrs')) in *.
  rewrite Hm in Hb, Hex. fold q in Hb, Hex, Hm.
  assert (He1 : -1074 <= e1) by (unfold e1; rewrite fexp64; lia).
  assert (Hge : 0 <= e1 - E) by (unfold e1; lia).
  assert (Hq : 0 <= q < 2 ^ 53).
  { pose proof (digits2_pos_bounds M) as [_ Hd].
    assert (H2 : 0 < 2 ^ (e1 - E)) by (apply Z.pow_pos_nonneg; lia).
    split; [apply Z.div_pos; lia|].
    apply Z.div_lt_upper_bound; [lia|].
    rewrite <- Z.pow_add_r by lia.
    eapply Z.lt_le_trans; [exact Hd|].
    apply Z.pow_le_mono_r; [lia|]. unfold e1. rewrite fexp64. lia. }
  exists m. repeat split; try lia.
  { intros H0. apply Hex. apply Hrs. exact H0. }
  subst e'. replace (E + (e1 - E)) with e1 by lia.
  set (n2 := fexp prec emax (Zdigits2 m + e1) - e1).
  destruct (shr_shifted m e1 n2 ltac:(lia)) as [[Hm2 _] He2].
  destruct (shr (Build_shr_record m false false) e1 n2) as [mrs'' e''].
  cbn [fst snd] in *. subst e''. rewrite Hm2.
  destruct m as [|p|p] eqn:Em; [| |lia].
  - rewrite Z.div_0_l by (apply Z.pow_nonzero; lia). reflexivity.
  - cbn [Zdigits2] in n2. pose proof (digits2_pos_bounds p) as [Hlo Hhi].
    unfold pack. destruct (Z.ltb_spec (Zpos p) (2 ^ 53)) as [Hlt|Hge53].
    + assert (Hd : Zpos (digits2_pos p) <= 53).
      { destruct (Z.le_gt_cases (Zpos (digits2_pos p)) 53) as [|Hgt]; [assumption|].
        assert (2 ^ 53 <= 2 ^ (Zpos (digits2_pos p) - 1))
          by (apply Z.pow_le_mono_r; lia). lia. }
      assert (Hn2 : Z.max n2 0 = 0) by (unfold n2; rewrite fexp64; lia).
      rewrite Hn2, Z.add_0_r. change (2 ^ 0) with 1. rewrite Z.div_1_r.
      reflexivity.
    + assert (Hp : Zpos p = 2 ^ 53) by lia.
      assert (Hd : Zpos (digits2_pos p) = 54).
      { injection Hp as ->. reflexivity. }
      assert (Hn2 : Z.max n2 0 = 1) by (unfold n2; rewrite Hd, fexp64; lia).
      rewrite Hn2, Hp. reflexivity.
Qed.

Lemma valid_finite (s : bool) (m : positive) (e : Z) :
  valid_binary (S754_finite s m e) = true ->
  -1074 <= e <= 971 /\ Zpos m < 2 ^ 53 /\ (-1074 < e -> 2 ^ 52 <= Zpos m) /\
  fexp prec emax (Zpos (digits2_pos m) + e) = e.
Proof.
  cbn [SpecFloat.valid_binary]. unfold bounded, canonical_mantissa.
  rewrite andb_true_iff, Z.eqb_eq, Z.leb_le, fexp64.
  change (emax - prec) with 971. intros [Hc Hb].
  pose proof (digits2_pos_bounds m) as [Hlo Hhi].
  repeat split; try lia.
  - eapply Z.lt_le_trans; [exact Hhi|]. apply Z.pow_le_mono_r; lia.
  - intros He. replace (Zpos (digits2_pos m)) with 53 in Hlo by lia. exact Hlo.
Qed.

Lemma pow2_split (a b : Z) : 0 <= a -> 0 <= b -> 2 ^ (a + b) = 2 ^ a * 2 ^ b.
Proof. intros. apply Z.pow_add_r; assumption. Qed.

Lemma pow2_pos (a : Z) : 0 <= a -> 0 < 2 ^ a.
Proof. intros. apply Z.pow_pos_nonneg; lia. Qed.

Lemma magnitude_lt (m1 m2 : positive) (e1 e2 : Z) :
  valid_binary (S754_finite false m1 e1) = true ->
  valid_binary (S754_finite false m2 e2) = true ->
  e1 < e2 ->
  Zpos m1 * 2 ^ (e1 + 1074) < Zpos m2 * 2 ^ (e2 + 1074).
Proof.
  intros H1 H2 Hlt.
  destruct (valid_finite _ _ _ H1) as (He1 & Hm1 & _ & _).
  destruct (valid_finite _ _ _ H2) as (He2 & _ & Hm2 & _).
  specialize (Hm2 ltac:(lia)).
  replace (e2 + 1074) with ((e1 + 1074) + (e2 - e1)) by lia.
  rewrite (pow2_split (e1 + 1074) (e2 - e1)) by lia.
  pose proof (pow2_pos (e1 + 1074) ltac:(lia)).
  assert (2 ^ 1 <= 2 ^ (e2 - e1)) by (apply Z.pow_le_mono_r; lia).
  change (2 ^ 1) with 2 in *.
  set (A := 2 ^ (e1 + 1074)) in *. set (K := 2 ^ (e2 - e1)) in *.
  assert (Zpos m1 * A < 2 ^ 53 * A) by (apply Z.mul_lt_mono_pos_r; lia).
  assert (2 ^ 52 * (A * 2) <= Zpos m2 * (A * K)).
  { apply Z.mul_le_mono_nonneg; try lia. apply Z.mul_le_mono_nonneg_l; lia. }
  replace (2 ^ 53 * A) with (2 ^ 52 * (A * 2)) in * by (change (2 ^ 53) with (2 ^ 52 * 2); ring).
  lia.
Qed.

Lemma magnitude_bound (s : bool) (m : positive) (e : Z) :
  valid_binary (S754_finite s m e) = true ->
  0 < Zpos m * 2 ^ (e + 1074) < 2 ^ 2098.
Proof.
  intros H. destruct (valid_finite _ _ _ H) as (He & Hm & _ & _).
  pose proof (pow2_pos (e + 1074) ltac:(lia)).
  split; [lia|].
  assert (2 ^ (e + 1074) <= 2 ^ 2045) by (apply Z.pow_le_mono_r; lia).
  replace (2 ^ 2098) with (2 ^ 53 * 2 ^ 2045) by (rewrite <- (pow2_split 53 2045) by lia; reflexivity).
  set (P := 2 ^ (e + 1074)) in *.
  assert (Zpos m * P < 2 ^ 53 * P) by (apply Z.mul_lt_mono_pos_r; lia).
  assert (2 ^ 53 * P <= 2 ^ 53 * 2 ^ 2045) by (apply Z.mul_le_mono_nonneg_l; lia).
  lia.
Qed.

Lemma huge_bound : 2 ^ 2098 < huge.
Proof. unfold huge. apply Z.pow_lt_mono_r; lia. Qed.

Lemma SFltb_ival (a b : spec_float) :
  valid_binary a = true -> valid_binary b = true ->
  SFltb a b = true -> ival a < ival b.
Proof.
  pose proof huge_bound as Hh.
  destruct a as [sa|sa| |sa ma ea], b as [sb|sb| |sb mb eb];
    intros Ha Hb; unfold SFltb, SFcompare; cbn [ival];
    try pose proof (magnitude_bound _ _ _ Ha);
    try pose proof (magnitude_bound _ _ _ Hb);
    repeat match goal with s : bool |- _ => destruct s end;
    try discriminate; try lia.
  - (* both negative *)
    destruct (Z.compare_spec ea eb) as [He|He|He]; try discriminate.
    + subst eb. change (Pos.compare_cont Eq ma mb) with (Pos.compare ma mb).
      destruct (Pos.compare_spec ma mb) as [Hm|Hm|Hm]; cbn [CompOpp]; try discriminate.
      intros _. destruct (valid_finite _ _ _ Ha) as (He & _).
      pose proof (pow2_pos (ea + 1074) ltac:(lia)).
      assert (Zpos mb * 2 ^ (ea + 1074) < Zpos ma * 2 ^ (ea + 1074))
        by (apply Z.mul_lt_mono_pos_r; lia).
      lia.
    + intros _. pose proof (magnitude_lt mb ma eb ea Hb Ha He). lia.
  - (* both positive *)
    destruct (Z.compare_spec ea eb) as [He|He|He]; try discriminate.
    + subst eb. change (Pos.compare_cont Eq ma mb) with (Pos.compare ma mb).
      destruct (Pos.compare_spec ma mb) as [Hm|Hm|Hm]; cbn [CompOpp]; try discriminate.
      intros _. destruct (valid_finite _ _ _ Ha) as (He & _).
      pose proof (pow2_pos (ea + 1074) ltac:(lia)).
      apply Z.mul_lt_mono_pos_r; lia.
    + intros _. exact (magnitude_lt ma mb ea eb Ha Hb He).
Qed.

Lemma pow2_53_shift (e : Z) :
  -1074 <= e -> 2 ^ 52 * 2 ^ (e + 1 + 1074) = 2 ^ 53 * 2 ^ (e + 1074).
Proof.
  intros He. replace (e + 1 + 1074) with (1 + (e + 1074)) by lia.
  rewrite (pow2_split 1 (e + 1074)) by lia.
  change (2 ^ 53) with (2 ^ 52 * 2 ^ 1). ring.
Qed.

Lemma pack_le (m e B : Z) :
  0 <= m <= 2 ^ 53 -> -1074 <= e <= 971 ->
  m * 2 ^ (e + 1074) <= B -> B < 2 ^ 2098 ->
  pack m e <> S754_nan /\ ival (pack m e) <= B.
Proof.
  intros Hm He HB HB'. unfold pack. destruct m as [|p|p]; [| |lia].
  - split; [discriminate|]. cbn [ival]. lia.
  - destruct (Z.ltb_spec (Zpos p) (2 ^ 53)) as [Hlt|Hge].
    + destruct (Z.leb_spec e 971) as [Hle|Hgt]; [|lia].
      split; [discriminate|]. exact HB.
    + assert (Hp : Zpos p = 2 ^ 53) by lia. rewrite Hp in HB.
      destruct (Z.leb_spec (e + 1) 971) as [Hle|Hgt].
      * split; [discriminate|]. cbn [ival].
        change (Zpos (2 ^ 52)) with (2 ^ 52). rewrite pow2_53_shift by lia. exact HB.
      * exfalso. replace e with 971 in HB by lia.
        change (2 ^ 53 * 2 ^ (971 + 1074)) with (2 ^ 2098) in HB. lia.
Qed.

Lemma pack_ge (m e B : Z) :
  0 <= m <= 2 ^ 53 -> -1074 <= e ->
  B <= m * 2 ^ (e + 1074) -> B < 2 ^ 2098 ->
  pack m e <> S754_nan /\ B <= ival (pack m e).
Proof.
  intros Hm He HB HB'. pose proof huge_bound as Hh.
  unfold pack. destruct m as [|p|p]; [| |lia].
  - split; [discriminate|]. cbn [ival]. lia.
  - destruct (Z.ltb_spec (Zpos p) (2 ^ 53)) as [Hlt|Hge].
    + destruct (Z.leb_spec e 971) as [Hle|Hgt];
        (split; [discriminate|]); cbn [ival]; lia.
    + assert (Hp : Zpos p = 2 ^ 53) by lia. rewrite Hp in HB.
      destruct (Z.leb_spec (e + 1) 971) as [Hle|Hgt];
        (split; [discriminate|]); cbn [ival]; [|lia].
      change (Zpos (2 ^ 52)) with (2 ^ 52). rewrite pow2_53_shift by lia. exact HB.
Qed.

(** Multiplying a positive float by a constant at most one does not
    increase it. *)
Lemma scale_down (mc my : positive) (ec ey : Z) :
  valid_binary (S754_finite false my ey) = true ->
  -64 <= ec <= 0 -> Zpos mc <= 2 ^ (- ec) ->
  let r := binary_round_aux prec emax false (Zpos (mc * my)) (ec + ey) loc_Exact in
  r <> S754_nan /\ ival r <= ival (S754_finite false my ey).
Proof.
  intros Hy Hec Hmc r; subst r.
  destruct (valid_finite _ _ _ Hy) as (Hey & Hmy & _ & Hcan).
  pose proof (magnitude_bound _ _ _ Hy) as HyB.
  destruct (binary_round_aux_spec (mc * my) (ec + ey)) as (m & Hb & Hex & H53 & ->).
  cbv zeta in *.
  set (E := ec + ey) in *.
  set (dM := Zpos (digits2_pos (mc * my))) in *.
  set (e1 := Z.max E (fexp prec emax (dM + E))) in *.
  set (M := Zpos (mc * my)) in *.
  assert (HM : M = Zpos mc * Zpos my) by (unfold M; apply Pos2Z.inj_mul).
  assert (He1 : -1074 <= e1) by (unfold e1; rewrite fexp64; lia).
  assert (Hn : 0 <= e1 - E) by (unfold e1; lia).
  pose proof (pow2_pos (e1 - E) Hn) as Hpn.
  pose proof (pow2_pos (- ec) ltac:(lia)) as Hpc.
  assert (Hq : 0 <= M / 2 ^ (e1 - E)) by (apply Z.div_pos; lia).
  cbn [ival].
  assert (Hkey : e1 <= 971 /\ m * 2 ^ (e1 + 1074) <= Zpos my * 2 ^ (ey + 1074)).
  { destruct (Z.eq_dec e1 E) as [Heq|Hne].
    - (* nothing is shifted out *)
      split; [lia|].
      replace (e1 - E) with 0 in * by lia. change (2 ^ 0) with 1 in *.
      rewrite Z.div_1_r in *. rewrite (Hex (Z.mod_1_r M)).
      replace (ey + 1074) with ((e1 + 1074) + (- ec)) by lia.
      rewrite (pow2_split (e1 + 1074) (- ec)) by lia.
      pose proof (pow2_pos (e1 + 1074) ltac:(lia)).
      rewrite HM.
      replace (Zpos mc * Zpos my * 2 ^ (e1 + 1074))
        with ((Zpos my * 2 ^ (e1 + 1074)) * Zpos mc) by ring.
      rewrite Z.mul_assoc. apply Z.mul_le_mono_nonneg_l; lia.
    - (* the target exponent is that of the product *)
      assert (He1' : e1 = fexp prec emax (dM + E)) by (unfold e1 in *; lia).
      pose proof (digits2_pos_bounds (mc * my)) as [HdM _]. fold dM M in HdM.
      pose proof (digits2_pos_bounds my) as [_ Hdy].
      set (dy := Zpos (digits2_pos my)) in *.
      assert (Hdig : dM + ec <= dy).
      { assert (Hlt : 2 ^ (dM - 1) < 2 ^ (dy + - ec)).
        { rewrite (pow2_split dy (- ec)) by (unfold dy; lia).
          eapply Z.le_lt_trans; [exact HdM|]. rewrite HM.
          assert (Zpos mc * Zpos my <= 2 ^ (- ec) * Zpos my)
            by (apply Z.mul_le_mono_nonneg_r; lia).
          assert (2 ^ (- ec) * Zpos my < 2 ^ (- ec) * 2 ^ dy)
            by (apply Z.mul_lt_mono_pos_l; lia).
          lia. }
        apply Z.pow_lt_mono_r_iff in Hlt; unfold dy in *; lia. }
      assert (Hle : e1 <= ey).
      { rewrite He1'. rewrite !fexp64 in *. unfold E. fold dy in Hcan. lia. }
      split; [lia|].
      set (Y := Zpos my * 2 ^ (ey - e1)).
      assert (HY : Y * 2 ^ (e1 - E) = Zpos my * 2 ^ (- ec)).
      { unfold Y. rewrite <- Z.mul_assoc, <- pow2_split by lia.
        f_equal. f_equal. unfold E. lia. }
      assert (HMY : M <= Y * 2 ^ (e1 - E)).
      { rewrite HY, HM, (Z.mul_comm (Zpos my)). apply Z.mul_le_mono_nonneg_r; lia. }
      assert (HmY : m <= Y).
      { pose proof (Z.div_mod M (2 ^ (e1 - E)) ltac:(lia)) as Hdm.
        pose proof (Z.mod_pos_bound M (2 ^ (e1 - E)) Hpn) as Hmod.
        destruct (Z.eq_dec (M mod 2 ^ (e1 - E)) 0) as [H0|H0].
        - rewrite (Hex H0). apply Z.div_le_upper_bound; lia.
        - assert (M / 2 ^ (e1 - E) < Y); [|lia].
          apply Z.mul_lt_mono_pos_r with (p := 2 ^ (e1 - E)); [lia|]. lia. }
      replace (ey + 1074) with ((ey - e1) + (e1 + 1074)) by lia.
      rewrite (pow2_split (ey - e1) (e1 + 1074)) by lia.
      rewrite Z.mul_assoc. fold Y.
      apply Z.mul_le_mono_nonneg_r; [|exact HmY].
      pose proof (pow2_pos (e1 + 1074) ltac:(lia)). lia. }
  destruct Hkey as [Hle Hval].
  apply pack_le; lia.
Qed.

(** Multiplying a positive float by a constant at least one does not
    decrease it. *)
Lemma scale_up (mc my : positive) (ec ey : Z) :
  valid_binary (S754_finite false my ey) = true ->
  -64 <= ec <= 0 -> 2 ^ (- ec) <= Zpos mc ->
  let r := binary_round_aux prec emax false (Zpos (mc * my)) (ec + ey) loc_Exact in
  r <> S754_nan /\ ival (S754_finite false my ey) <= ival r.
Proof.
  intros Hy Hec Hmc r; subst r.
  destruct (valid_finite _ _ _ Hy) as (Hey & Hmy & _ & Hcan).
  pose proof (magnitude_bound _ _ _ Hy) as HyB.
  destruct (binary_round_aux_spec (mc * my) (ec + ey)) as (m & Hb & Hex & H53 & ->).
  cbv zeta in *.
  set (E := ec + ey) in *.
  set (dM := Zpos (digits2_pos (mc * my))) in *.
  set (e1 := Z.max E (fexp prec emax (dM + E))) in *.
  set (M := Zpos (mc * my)) in *.
  assert (HM : M = Zpos mc * Zpos my) by (unfold M; apply Pos2Z.inj_mul).
  assert (He1 : -1074 <= e1) by (unfold e1; rewrite fexp64; lia).
  assert (Hn : 0 <= e1 - E) by (unfold e1; lia).
  pose proof (pow2_pos (e1 - E) Hn) as Hpn.
  pose proof (pow2_pos (- ec) ltac:(lia)) as Hpc.
  pose proof (pow2_pos (e1 + 1074) ltac:(lia)) as Hpe.
  assert (Hq : 0 <= M / 2 ^ (e1 - E)) by (apply Z.div_pos; lia).
  cbn [ival].
  assert (Hkey : Zpos my * 2 ^ (ey + 1074) <= m * 2 ^ (e1 + 1074)).
  { destruct (Z.eq_dec e1 E) as [Heq|Hne].
    - (* nothing is shifted out *)
      replace (e1 - E) with 0 in * by lia. change (2 ^ 0) with 1 in *.
      rewrite Z.div_1_r in *. rewrite (Hex (Z.mod_1_r M)).
      replace (ey + 1074) with ((e1 + 1074) + (- ec)) by lia.
      rewrite (pow2_split (e1 + 1074) (- ec)) by lia.
      rewrite HM.
      replace (Zpos mc * Zpos my * 2 ^ (e1 + 1074))
        with ((Zpos my * 2 ^ (e1 + 1074)) * Zpos mc) by ring.
      rewrite Z.mul_assoc. apply Z.mul_le_mono_nonneg_l; lia.
    - assert (He1' : e1 = fexp prec emax (dM + E)) by (unfold e1 in *; lia).
      destruct (Z.le_gt_cases e1 ey) as [Hle|Hgt].
      + (* the float lies on the grid of the product *)
        set (Y := Zpos my * 2 ^ (ey - e1)).
        assert (HY : Y * 2 ^ (e1 - E) = Zpos my * 2 ^ (- ec)).
        { unfold Y. rewrite <- Z.mul_assoc, <- pow2_split by lia.
          f_equal. f_equal. unfold E. lia. }
        assert (HMY : Y * 2 ^ (e1 - E) <= M).
        { rewrite HY, HM, (Z.mul_comm (Zpos my)). apply Z.mul_le_mono_nonneg_r; lia. }
        assert (HmY : Y <= m).
        { assert (Y <= M / 2 ^ (e1 - E)); [|lia].
          apply Z.div_le_lower_bound; lia. }
        replace (ey + 1074) with ((ey - e1) + (e1 + 1074)) by lia.
        rewrite (pow2_split (ey - e1) (e1 + 1074)) by lia.
        rewrite Z.mul_assoc. fold Y.
        apply Z.mul_le_mono_nonneg_r; lia.
      + (* the product lies in a higher binade *)
        rewrite fexp64 in He1'.
        assert (He1'' : e1 = dM + E - 53) by lia.
        pose proof (digits2_pos_bounds (mc * my)) as [HdM _]. fold dM M in HdM.
        assert (H52 : 2 ^ 52 <= m).
        { assert (2 ^ 52 <= M / 2 ^ (e1 - E)); [|lia].
          apply Z.div_le_lower_bound; [lia|].
          rewrite Z.mul_comm, <- pow2_split by lia.
          replace (52 + (e1 - E)) with (dM - 1) by lia. exact HdM. }
        assert (Hstep : 2 ^ 53 * 2 ^ (ey + 1074) <= 2 ^ 52 * 2 ^ (e1 + 1074)).
        { rewrite <- pow2_53_shift by lia.
          apply Z.mul_le_mono_nonneg_l; [lia|]. apply Z.pow_le_mono_r; lia. }
        pose proof (pow2_pos (ey + 1074) ltac:(lia)).
        assert (Zpos my * 2 ^ (ey + 1074) <= 2 ^ 53 * 2 ^ (ey + 1074))
          by (apply Z.mul_le_mono_nonneg_r; lia).
        assert (2 ^ 52 * 2 ^ (e1 + 1074) <= m * 2 ^ (e1 + 1074))
          by (apply Z.mul_le_mono_nonneg_r; lia).
        lia. }
  apply pack_ge; lia.
Qed.

Lemma binary_round_aux_nonneg m e l :
  SFnonneg (binary_round_aux prec emax false m e l).
Proof.
  unfold binary_round_aux.
  destruct (shr_fexp prec emax m e l) as [mrs' e'].
  destruct (shr_fexp prec emax _ e' loc_Exact) as [mrs'' e''].
  destruct (shr_m mrs''); simpl; auto.
  destruct (Z.leb e'' _); simpl; auto.
Qed.

Lemma SFmul_nonneg x y :
  SFnonneg x -> SFnonneg y -> SFnonneg (SFmul prec emax x y).
Proof.
  destruct x as [sx|sx| |sx mx ex], y as [sy|sy| |sy my ey];
    simpl; intros; subst; simpl; auto.
  apply binary_round_aux_nonneg.
Qed.

Lemma SFleb_zero_nonneg f : SFleb (S754_zero false) f = true -> SFnonneg f.
Proof.
  unfold SFleb; destruct f as [s|s| |s m e]; simpl; auto;
    destruct s; simpl; intros; congruence.
Qed.

(** For a size [t], no number lies below [0.7 * t] and above [1.3 * t]. *)
Lemma SF_band_absurd (X T : spec_float) :
  valid_binary X = true -> valid_binary T = true -> SFnonneg T ->
  valid_binary (SFmul prec emax (Prim2SF 0.7) T) = true ->
  valid_binary (SFmul prec emax (Prim2SF 1.3) T) = true ->
  SFltb X (SFmul prec emax (Prim2SF 0.7) T) = true ->
  SFltb (SFmul prec emax (Prim2SF 1.3) T) X = true -> False.
Proof.
  intros HX HT Hnn HA HB.
  replace (Prim2SF 0.7) with (S754_finite false 6305039478318694 (-53)) in * by reflexivity.
  replace (Prim2SF 1.3) with (S754_finite false 5854679515581645 (-52)) in * by reflexivity.
  destruct T as [s|s| |s m e]; cbn [SFmul xorb] in *.
  - destruct X as [sx|[|]| |[|] mx ex]; cbn; discriminate.
  - cbn in Hnn. subst s. destruct X as [sx|[|]| |[|] mx ex]; cbn; discriminate.
  - destruct X as [sx|[|]| |[|] mx ex]; cbn; discriminate.
  - cbn in Hnn. subst s. intros Hlo Hhi.
    destruct (scale_down 6305039478318694 m (-53) e HT ltac:(lia) ltac:(cbn; lia))
      as [_ Hdown].
    destruct (scale_up 5854679515581645 m (-52) e HT ltac:(lia) ltac:(cbn; lia))
      as [_ Hup].
    cbv zeta in Hdown, Hup.
    pose proof (SFltb_ival _ _ HX HA Hlo).
    pose proof (SFltb_ival _ _ HB HX Hhi).
    lia.
Qed.

Lemma band_absurd (x d : float) :
  (0 <=? d)%float = true ->
  (x <? 0.7 * (0.4 * d))%float = true ->
  (1.3 * (0.4 * d) <? x)%float = true -> False.
Proof.
  rewrite leb_spec, !ltb_spec. intros Hd.
  pose proof (Prim2SF_valid (0.7 * (0.4 * d))%float) as HA.
  pose proof (Prim2SF_valid (1.3 * (0.4 * d))%float) as HB.
  rewrite mul_spec in HA, HB |- *. rewrite (mul_spec 1.3).
  apply SF_band_absurd; try apply Prim2SF_valid; try assumption.
  rewrite mul_spec. apply SFmul_nonneg; [reflexivity|].
  now apply SFleb_zero_nonneg.
Qed.
End Rounding.

(* ================================================================== *)
(** * Binary64 arithmetic: signs and symmetry of products *)
(* ================================================================== *)

Section FloatSigns.
Import Binary64.
Local Open Scope float_scope.

Lemma binary_round_aux_opp s m e l :
  SFopp (binary_round_aux prec emax s m e l) = binary_round_aux prec emax (negb s) m e l.
Proof.
  unfold binary_round_aux.
  destruct (shr_fexp prec emax m e l) as [mrs' e'].
  destruct (shr_fexp prec emax _ e' loc_Exact) as [mrs'' e''].
  destruct (shr_m mrs''); simpl; try reflexivity.
  destruct (Z.leb e'' _); reflexivity.
Qed.

Lemma SFmul_comm x y : SFmul prec emax x y = SFmul prec emax y x.
Proof.
  destruct x as [sx|sx| |sx mx ex], y as [sy|sy| |sy my ey]; simpl;
    rewrite ?(xorb_comm sx sy); try reflexivity.
  now rewrite Pos.mul_comm, Z.add_comm.
Qed.

Lemma SFmul_opp_l x y : SFmul prec emax (SFopp x) y = SFopp (SFmul prec emax x y).
Proof.
  destruct x as [sx|sx| |sx mx ex], y as [sy|sy| |sy my ey]; simpl;
    rewrite ?binary_round_aux_opp, ?negb_xorb_l; reflexivity.
Qed.

Lemma float_mul_comm (x y : float) : x * y = y * x.
Proof. apply Prim2SF_inj. rewrite !mul_spec. apply SFmul_comm. Qed.

Lemma float_mul_opp_l (x y : float) : (- x) * y = - (x * y).
Proof.
  apply Prim2SF_inj. rewrite mul_spec, !opp_spec, mul_spec. apply SFmul_opp_l.
Qed.

Lemma SF_straddle_absurd x t :
  SFnonneg t -> SFltb x (SFopp t) = true -> SFltb t x = true -> False.
Proof.
  unfold SFltb.
  destruct x as [s|s| |s m e], t as [s'|s'| |s' m' e']; simpl; intros H; subst; simpl;
    repeat match goal with b : bool |- _ => destruct b end; simpl; congruence.
Qed.

(** No number lies both below [-(c*d)] and above [c*d] when [c] and [d]
    are not negative. *)
Lemma straddle_absurd (x c d : float) :
  (0 <=? c) = true -> (0 <=? d) = true ->
  (x <? - (c * d)) = true -> (c * d <? x) = true -> False.
Proof.
  rewrite !leb_spec, !ltb_spec, opp_spec, mul_spec. intros Hc Hd.
  apply SF_straddle_absurd. apply SFmul_nonneg; apply SFleb_zero_nonneg; assumption.
Qed.

Lemma neg_threshold (c d : float) : (- d) * c = - (c * d).
Proof. now rewrite float_mul_opp_l, (float_mul_comm d c). Qed.

End FloatSigns.

(* ================================================================== *)
(** * Geometry evaluator and guidance composer *)
(* ================================================================== *)

Section Geometry.
Import JS Util Spec Example.
Local Open Scope string_scope.
Local Open Scope float_scope.

(** C1: [isFaceCentered] answers true exactly when the absolute horizontal
    offset of the face-box centre from the frame centre is at most 0.15
    times the frame width and the absolute vertical offset is at most 0.15
    times the frame height.  The two axes are tested one by one; no radius
    or other joint magnitude enters the decision. *)
Theorem isFaceCentered_iff (face : Face) (width height : number) :
  isFaceCentered face width height = true <->
  (abs (offsetX (box face) width) <=? 0.15 * width) = true /\
  (abs (offsetY (box face) height) <=? 0.15 * height) = true.
Proof.
  unfold isFaceCentered, offsetX, offsetY; cbv zeta.
  rewrite andb_true_iff, (float_mul_comm width), (float_mul_comm height).
  reflexivity.
Qed.

Lemma guidance_compose (face : Face) (width height : number) :
  getFacePositionGuidance face width height =
  composeGuidance [horizontalClause (box face) width;
                   verticalClause (box face) height;
                   distanceClause (box face) width].
Proof.
  unfold getFacePositionGuidance, composeGuidance, horizontalClause,
    verticalClause, distanceClause, offsetX, offsetY, faceWidth, join; cbv zeta.
  rewrite !neg_threshold, (float_mul_comm width 0.1), (float_mul_comm height 0.1),
    (float_mul_comm width 0.4), (float_mul_comm _ 0.7), (float_mul_comm _ 1.3).
  unfold gtb.
  repeat match goal with
         | |- context [PrimFloat.ltb ?a ?b] => destruct (PrimFloat.ltb a b)
         end; reflexivity.
Qed.

Lemma no_straddle (x d : number) :
  dimension d -> (x <? - (0.1 * d)) = true -> (0.1 * d <? x) = true -> False.
Proof. intro Hd. apply straddle_absurd; [reflexivity | exact Hd]. Qed.

Ltac split_comparisons :=
  unfold gtb in *;
  repeat match goal with
         | |- context [PrimFloat.ltb ?a ?b] =>
           let E := fresh "E" in destruct (PrimFloat.ltb a b) eqn:E
         end.

(** Both offsets on their thresholds pass, though the centre is farther
    from the frame centre than either threshold. *)
Example corner_face_is_centered :
  isFaceCentered corner_face 640 480 = true /\
  abs (offsetX (box corner_face) 640) = 0.15 * 640 /\
  abs (offsetY (box corner_face) 480) = 0.15 * 480 /\
  sqrt (96 * 96 + 72 * 72) = 120.
Proof. repeat split; reflexivity. Qed.

(** C2: for a frame of sizes [width] and [height], the guidance contains
    "Move right" exactly when the signed horizontal offset is below
    -(0.1 * width), "Move left" exactly when it is above 0.1 * width,
    "Move down" exactly when the signed vertical offset is below
    -(0.1 * height), and "Move up" exactly when it is above 0.1 * height. *)
Theorem guidance_directions (face : Face) (width height : number) :
  dimension width -> dimension height ->
  let g := getFacePositionGuidance face width height in
  (includes g "Move right" = true <->
     (offsetX (box face) width <? - (0.1 * width)) = true) /\
  (includes g "Move left" = true <->
     gtb (offsetX (box face) width) (0.1 * width) = true) /\
  (includes g "Move down" = true <->
     (offsetY (box face) height <? - (0.1 * height)) = true) /\
  (includes g "Move up" = true <->
     gtb (offsetY (box face) height) (0.1 * height) = true).
Proof.
  intros Hw Hh g; subst g. rewrite guidance_compose.
  unfold horizontalClause, verticalClause, distanceClause.
  split_comparisons;
    try (exfalso; eapply (no_straddle _ width Hw); eassumption);
    try (exfalso; eapply (no_straddle _ height Hh); eassumption);
    vm_compute; intuition congruence.
Qed.

Lemma guidance_directions_witness :
  dimension 640 /\ dimension 480 /\
  (includes (getFacePositionGuidance left_face 640 480) "Move right" = true <->
     (offsetX (box left_face) 640 <? - (0.1 * 640)) = true) /\
  (includes (getFacePositionGuidance left_face 640 480) "Move left" = true <->
     gtb (offsetX (box left_face) 640) (0.1 * 640) = true) /\
  (includes (getFacePositionGuidance left_face 640 480) "Move down" = true <->
     (offsetY (box left_face) 480 <? - (0.1 * 480)) = true) /\
  (includes (getFacePositionGuidance left_face 640 480) "Move up" = true <->
     gtb (offsetY (box left_face) 480) (0.1 * 480) = true).
Proof.
  split; [reflexivity|]. split; [reflexivity|].
  exact (guidance_directions left_face 640 480 eq_refl eq_refl).
Defined.

(** What the guidance of the face at the left edge reads. *)
Example left_face_guidance :
  getFacePositionGuidance left_face 640 480 = "Move right." /\
  isFaceCentered left_face 640 480 = false /\
  isFaceCentered centred_face 640 480 = true.
Proof. repeat split; reflexivity. Qed.

(** C3: the guidance contains "Move closer to the camera" exactly when the
    face width is below 0.7 * (0.4 * width) and "Move farther from the
    camera" exactly when it is above 1.3 * (0.4 * width); it is the
    non-empty ones among the horizontal, vertical and distance clauses, in
    that order, joined with ". " and closed by a period; and it is the
    "Almost centered" fallback when the three clauses are empty. *)
Theorem guidance_distance_and_composition (face : Face) (width height : number) :
  dimension width ->
  let b := box face in
  let g := getFacePositionGuidance face width height in
  (includes g "Move closer to the camera" = true <->
     (faceWidth b <? 0.7 * (0.4 * width)) = true) /\
  (includes g "Move farther from the camera" = true <->
     gtb (faceWidth b) (1.3 * (0.4 * width)) = true) /\
  g = composeGuidance [horizontalClause b width; verticalClause b height;
                       distanceClause b width] /\
  (horizontalClause b width = "" -> verticalClause b height = "" ->
   distanceClause b width = "" -> g = FALLBACK).
Proof.
  intros Hw b g; subst b g. rewrite guidance_compose.
  split; [|split; [|split; [reflexivity|]]].
  - unfold horizontalClause, verticalClause, distanceClause.
    split_comparisons;
      try (exfalso; eapply (band_absurd _ width Hw); eassumption);
      vm_compute; intuition congruence.
  - unfold horizontalClause, verticalClause, distanceClause.
    split_comparisons;
      try (exfalso; eapply (band_absurd _ width Hw); eassumption);
      vm_compute; intuition congruence.
  - intros -> -> ->. reflexivity.
Qed.

Lemma guidance_distance_and_composition_witness :
  dimension 640 /\
  (includes (getFacePositionGuidance left_face 640 480) "Move closer to the camera" = true <->
     (faceWidth (box left_face) <? 0.7 * (0.4 * 640)) = true) /\
  (includes (getFacePositionGuidance left_face 640 480) "Move farther from the camera" = true <->
     gtb (faceWidth (box left_face)) (1.3 * (0.4 * 640)) = true) /\
  getFacePositionGuidance left_face 640 480 =
    composeGuidance [horizontalClause (box left_face) 640;
                     verticalClause (box left_face) 480;
                     distanceClause (box left_face) 640] /\
  (horizontalClause (box left_face) 640 = "" -> verticalClause (box left_face) 480 = "" ->
   distanceClause (box left_face) 640 = "" ->
   getFacePositionGuidance left_face 640 480 = FALLBACK).
Proof.
  split; [reflexivity|].
  exact (guidance_distance_and_composition left_face 640 480 eq_refl).
Defined.

(** A face in the middle of the frame and of the ideal width draws the
    fallback from the composer; clauses come out in the fixed order. *)
Example composed_guidance_examples :
  getFacePositionGuidance centred_face 640 480 = FALLBACK /\
  getFacePositionGuidance
    {| box := {| xMin := 0; yMin := 0; xMax := 64; yMax := 48 |}; keypoints := [] |}
    640 480 = "Move right. Move down. Move closer to the camera.".
Proof. split; reflexivity. Qed.

End Geometry.

(* ================================================================== *)
(** * Announcement throttle *)
(* ================================================================== *)

Section Throttle.
Import JS Util Spec Example.
Local Open Scope string_scope.
Local Open Scope list_scope.
Local Open Scope Z_scope.

Lemma spoken_app (t u : list Event) : spoken (t ++ u) = spoken t ++ spoken u.
Proof.
  induction t as [|e t IH]; [reflexivity|].
  destruct e; cbn [app spoken]; rewrite IH; reflexivity.
Qed.

Lemma announcements_app (t u : list Event) :
  announcements (t ++ u) = announcements t ++ announcements u.
Proof.
  induction t as [|e t IH]; [reflexivity|].
  destruct e; cbn [app announcements]; rewrite IH; reflexivity.
Qed.

(** C4: with speech available, in whatever world [w] the earlier calls have
    left, a call of [speakMessage] whose message is the last announced one
    and comes less than 3000 ms after it was spoken hands nothing to the
    synthesizer (and leaves the record alone); a call with another message
    speaks whatever the time; a call with the same message 3000 ms or more
    later speaks; and every call that speaks sets the record to its message
    and to the current time. *)
Theorem announcement_throttle (message : string) (interrupt : bool)
        (env : SpeechEnv) (w : World) :
  speechAvailable env ->
  let last := lastAnnouncedStatus (util w) in
  let elapsed := now env - lastAnnouncementTime (util w) in
  let w' := speakMessage message interrupt env w in
  (message = last -> elapsed < 3000 ->
     spoken (trace w') = spoken (trace w) /\ util w' = util w) /\
  (message <> last ->
     spoken (trace w') = spoken (trace w) ++ [message] /\
     util w' = record message (now env)) /\
  (message = last -> 3000 <= elapsed ->
     spoken (trace w') = spoken (trace w) ++ [message] /\
     util w' = record message (now env)) /\
  (spoken (trace w') <> spoken (trace w) -> util w' = record message (now env)).
Proof.
  intros [Hs Ht] last elapsed w'. subst last elapsed w'.
  unfold speakMessage. rewrite Hs, Ht. cbn [negb emit util trace].
  destruct (String.eqb_spec message (lastAnnouncedStatus (util w))) as [He|Hne];
    destruct (Z.ltb_spec (now env - lastAnnouncementTime (util w)) 3000) as [Hl|Hg];
    cbn [andb];
    destruct (interrupt && speaking env), (paused env);
    cbn [emit with_util util trace];
    rewrite ?spoken_app; cbn [spoken]; rewrite ?app_nil_r;
    repeat split; intros; try reflexivity; try lia; try congruence.
Qed.

Lemma announcement_throttle_witness :
  speechAvailable (speaking_at 10000) /\
  let w := speakMessage "Move right." false (speaking_at 10000) (page true) in
  let w' := speakMessage "Move right." false (speaking_at 12999) w in
  spoken (trace w) = ["Move right."] /\
  spoken (trace w') = ["Move right."] /\ util w' = util w.
Proof.
  split; [split; reflexivity|].
  cbv zeta. split; [reflexivity|].
  refine (proj1 (announcement_throttle "Move right." false (speaking_at 12999)
            (speakMessage "Move right." false (speaking_at 10000) (page true))
            (conj eq_refl eq_refl)) eq_refl _).
  cbn. lia.
Defined.

(** "X" twice within 3000 ms is spoken once; "X" then "Y" is spoken twice;
    "X" again after 3001 ms is spoken a second time. *)
Example throttle_property_of_section_8 :
  let say m t w := speakMessage m false (speaking_at t) w in
  spoken (trace (say "X" 12000 (say "X" 10000 (page true)))) = ["X"] /\
  spoken (trace (say "Y" 10001 (say "X" 10000 (page true)))) = ["X"; "Y"] /\
  spoken (trace (say "X" 13001 (say "X" 10000 (page true)))) = ["X"; "X"].
Proof. repeat split; reflexivity. Qed.

End Throttle.

(* ================================================================== *)
(** * Capture actions *)
(* ================================================================== *)

Section Capture.
Import JS Util Index Spec Example.
Local Open Scope string_scope.
Local Open Scope list_scope.

Lemma statusLacksCentered_false (w : World) :
  statusLacksCentered w -> statusIsCentered w = false.
Proof.
  unfold statusLacksCentered, statusIsCentered.
  destruct (faceStatus (doc w)); auto.
Qed.

Lemma refused_capture (env : CaptureEnv) (w : World)
      (action : CaptureEnv -> World -> World) :
  In action captureActions -> statusIsCentered w = false ->
  let w' := action env w in
  doc w' = doc w /\ timers w' = timers w /\ vars w' = vars w /\
  STATE w' = STATE w /\ util w' = util w /\
  currentFaceGuidance w' = currentFaceGuidance w /\
  trace w' = trace w ++ corrective env.
Proof.
  intros [<- | [<- | []]] Hc; unfold capturePhoto, takeAndDownloadPhoto, corrective;
    rewrite Hc; destruct (speech env); cbn; rewrite <- ?app_assoc; auto 10.
Qed.

(** C5: a capture action (either of the two) taken while the status text
    does not contain "Centered" leaves the photo canvas, the captured-photo
    image, the download button and every other part of the world as they
    were: nothing is drawn, no shutter sounds, no task is queued; it emits
    the corrective message, spoken or as an alert, and nothing else.  A
    capture that draws a picture, enables the download button or sounds the
    shutter happens only under a status text that contains "Centered". *)
Theorem capture_requires_centered (env : CaptureEnv) (w : World)
        (action : CaptureEnv -> World -> World) :
  In action captureActions ->
  let w' := action env w in
  (statusLacksCentered w ->
     doc w' = doc w /\ timers w' = timers w /\ vars w' = vars w /\
     STATE w' = STATE w /\ util w' = util w /\
     currentFaceGuidance w' = currentFaceGuidance w /\
     trace w' = trace w ++ corrective env) /\
  (src (capturedPhoto (doc w')) <> src (capturedPhoto (doc w)) \/
   pc_content (photoCanvas (doc w')) <> pc_content (photoCanvas (doc w)) \/
   downloadDisabled (doc w') <> downloadDisabled (doc w) \/
   In Shutter (new_events w w') ->
   exists statusElement,
     faceStatus (doc w) = Some statusElement /\
     includes (textContent statusElement) "Centered" = true).
Proof.
  intros Hin w'. split.
  - intros Hl. apply (refused_capture env w action Hin).
    now apply statusLacksCentered_false.
  - intros Hchg. destruct (statusIsCentered w) eqn:Hc.
    + unfold statusIsCentered in Hc.
      destruct (faceStatus (doc w)) as [st|]; [|discriminate].
      exists st. auto.
    + exfalso.
      destruct (refused_capture env w action Hin Hc) as (Hd & _ & _ & _ & _ & _ & Ht).
      fold w' in Hd, Ht. unfold new_events in Hchg.
      rewrite Hd, Ht in Hchg. rewrite skipn_app, skipn_all, Nat.sub_diag in Hchg.
      cbn [skipn app] in Hchg.
      destruct Hchg as [H|[H|[H|H]]]; try congruence.
      unfold corrective in H. destruct (speech env); cbn in H; intuition discriminate.
Qed.

Lemma capture_requires_centered_witness :
  In capturePhoto captureActions /\
  statusLacksCentered (page true) /\
  doc (capturePhoto desktop (page true)) = doc (page true) /\
  trace (capturePhoto desktop (page true)) =
    [SpeechCancel; SpeechSpeak WARNING_MESSAGE].
Proof.
  split; [left; reflexivity|]. split; [reflexivity|].
  destruct (capture_requires_centered desktop (page true) capturePhoto
              (or_introl eq_refl)) as [H _].
  destruct (H eq_refl) as (Hd & _ & _ & _ & _ & _ & Ht).
  split; [exact Hd | exact Ht].
Defined.

End Capture.

(* ================================================================== *)
(** * Frames: status line, guidance slot and announcements *)
(* ================================================================== *)

Section Frames.
Import JS Util Index Spec Example.
Local Open Scope string_scope.
Local Open Scope float_scope.
Local Open Scope list_scope.

Lemma speakMessage_frame (message : string) (interrupt : bool)
      (env : SpeechEnv) (w : World) :
  let w' := speakMessage message interrupt env w in
  doc w' = doc w /\ currentFaceGuidance w' = currentFaceGuidance w /\
  STATE w' = STATE w /\ vars w' = vars w /\ timers w' = timers w.
Proof.
  unfold speakMessage.
  destruct (hasSpeech env), (String.eqb message _ && _)%bool,
    (interrupt && speaking env)%bool, (paused env), (speakThrows env);
    cbn; auto.
Qed.

Lemma speakMessage_announcements (message : string) (interrupt : bool)
      (env : SpeechEnv) (w : World) :
  announcements (trace (speakMessage message interrupt env w)) =
  announcements (trace w) ++ [(message, interrupt)].
Proof.
  unfold speakMessage.
  destruct (hasSpeech env), (String.eqb message _ && _)%bool,
    (interrupt && speaking env)%bool, (paused env), (speakThrows env);
    cbn; rewrite ?announcements_app; cbn; rewrite ?app_nil_r; reflexivity.
Qed.

Ltac frame_of_speakMessage Hd Hg :=
  match goal with
  | |- context [speakMessage ?m ?i ?e ?x] =>
    destruct (speakMessage_frame m i e x) as (Hd & Hg & _); cbv zeta in Hd, Hg
  end.

Lemma updateFaceStatus_status (isCentered : bool) (env : SpeechEnv) (w : World) :
  faceStatus (doc w) <> None ->
  faceStatus (doc (updateFaceStatus isCentered env w)) = Some (statusLine isCentered).
Proof.
  intros Hs. unfold updateFaceStatus.
  destruct (faceStatus (doc w)) as [st|] eqn:Est; [|congruence].
  destruct isCentered.
  - frame_of_speakMessage Hd Hg.
    destruct (takeAndDownloadButton _); cbn [emit doc]; rewrite Hd; reflexivity.
  - cbn [with_doc currentFaceGuidance].
    destruct (currentFaceGuidance w) as [g|]; [destruct (truthy (Some g))|];
      frame_of_speakMessage Hd Hg; rewrite Hd; reflexivity.
Qed.

Lemma updateFaceStatus_guidance (isCentered : bool) (env : SpeechEnv) (w : World) :
  currentFaceGuidance (updateFaceStatus isCentered env w) = currentFaceGuidance w.
Proof.
  unfold updateFaceStatus.
  destruct (faceStatus (doc w)) as [st|]; [|reflexivity].
  destruct isCentered.
  - frame_of_speakMessage Hd Hg.
    rewrite Hd. cbn [with_doc doc with_faceStatus takeAndDownloadButton].
    destruct (takeAndDownloadButton (doc w)); cbn [emit currentFaceGuidance];
      rewrite Hg; reflexivity.
  - cbn [with_doc currentFaceGuidance].
    destruct (currentFaceGuidance w) as [g|] eqn:Eg; [destruct (truthy (Some g))|];
      frame_of_speakMessage Hd Hg; rewrite Hg; exact Eg.
Qed.

Lemma updateFaceStatus_announcements (isCentered : bool) (env : SpeechEnv)
      (w : World) (g : string) :
  faceStatus (doc w) <> None ->
  currentFaceGuidance w = Some g -> truthy (Some g) = true ->
  announcements (trace (updateFaceStatus isCentered env w)) =
  announcements (trace w) ++
    [if isCentered then (CENTERED_ANNOUNCEMENT, true) else (g, false)].
Proof.
  intros Hs Hg Ht. unfold updateFaceStatus.
  destruct (faceStatus (doc w)) as [st|] eqn:Est; [|congruence].
  destruct isCentered.
  - match goal with
    | |- context [speakMessage ?m ?i ?e ?x] =>
      destruct (speakMessage_frame m i e x) as (Hd & _); cbv zeta in Hd;
        pose proof (speakMessage_announcements m i e x) as Ha
    end.
    rewrite Hd. cbn [with_doc doc with_faceStatus takeAndDownloadButton].
    destruct (takeAndDownloadButton (doc w)); cbn [emit trace];
      rewrite ?announcements_app, Ha; cbn; rewrite ?app_nil_r; reflexivity.
  - cbn [with_doc currentFaceGuidance]. rewrite Hg, Ht.
    rewrite speakMessage_announcements. reflexivity.
Qed.

(** The composer never returns the empty string for a face with a box. *)
Lemma guidance_truthy (face : Face) (width height : number) :
  truthy (Some (getFacePositionGuidance face width height)) = true.
Proof.
  rewrite guidance_compose.
  unfold horizontalClause, verticalClause, distanceClause, gtb.
  repeat match goal with
         | |- context [PrimFloat.ltb ?a ?b] => destruct (PrimFloat.ltb a b)
         end; reflexivity.
Qed.

Lemma drawFaceBox_effect (cw ch : number) (w : World) (fe : Face * SpeechEnv) :
  faceStatus (doc w) <> None ->
  faceStatus (doc (drawFaceBox cw ch true w fe)) =
    Some (statusLine (isFaceCentered (fst fe) cw ch)) /\
  currentFaceGuidance (drawFaceBox cw ch true w fe) =
    Some (getFacePositionGuidance (fst fe) cw ch) /\
  announcements (trace (drawFaceBox cw ch true w fe)) =
    announcements (trace w) ++ [announcementFor (fst fe) cw ch].
Proof.
  intros Hs. destruct fe as [face env]. cbn [drawFaceBox fst].
  set (w1 := with_guidance _ w).
  assert (Hs1 : faceStatus (doc w1) <> None) by exact Hs.
  split; [|split].
  - now apply updateFaceStatus_status.
  - rewrite updateFaceStatus_guidance. reflexivity.
  - rewrite (updateFaceStatus_announcements _ env w1 _ Hs1 eq_refl (guidance_truthy _ _ _)).
    unfold announcementFor. destruct (isFaceCentered face cw ch); reflexivity.
Qed.

Lemma drawFaces_announcements (cw ch : number)
      (faces : list (Face * SpeechEnv)) (w : World) :
  faceStatus (doc w) <> None ->
  let w' := fold_left (drawFaceBox cw ch true) faces w in
  faceStatus (doc w') <> None /\
  announcements (trace w') =
    announcements (trace w) ++ map (fun fe => announcementFor (fst fe) cw ch) faces.
Proof.
  revert w. induction faces as [|fe faces IH]; intros w Hs; cbn [fold_left map].
  - split; [exact Hs | now rewrite app_nil_r].
  - destruct (drawFaceBox_effect cw ch w fe Hs) as (Hst & _ & Han).
    assert (Hs' : faceStatus (doc (drawFaceBox cw ch true w fe)) <> None)
      by (rewrite Hst; discriminate).
    destruct (IH _ Hs') as [Hs'' Han'].
    split; [exact Hs''|]. cbv zeta in Han'. rewrite Han', Han, <- app_assoc. reflexivity.
Qed.

Lemma drawFaces_last (cw ch : number)
      (faces : list (Face * SpeechEnv)) (fe : Face * SpeechEnv) (w : World) :
  faceStatus (doc w) <> None ->
  let w' := fold_left (drawFaceBox cw ch true) (faces ++ [fe]) w in
  faceStatus (doc w') = Some (statusLine (isFaceCentered (fst fe) cw ch)) /\
  currentFaceGuidance w' = Some (getFacePositionGuidance (fst fe) cw ch).
Proof.
  intros Hs. cbv zeta. rewrite fold_left_app. cbn [fold_left].
  destruct (drawFaces_announcements cw ch faces w Hs) as [Hs' _].
  destruct (drawFaceBox_effect cw ch _ fe Hs') as (H1 & H2 & _). auto.
Qed.

(** The faces a frame gets to: all of them unless key points are shown and
    one of them has too few; never none of a frame that has faces. *)
Lemma processed_all (n : nat) (kp : bool) (faces : list (Face * SpeechEnv)) :
  keypointsMissing n kp faces = false -> processed n kp faces = faces.
Proof.
  unfold keypointsMissing. destruct kp; cbn [andb].
  - induction faces as [|fe faces IH]; cbn [existsb processed andb]; [reflexivity|].
    intros H. apply orb_false_iff in H. destruct H as [-> H].
    rewrite (IH H). reflexivity.
  - intros _. induction faces as [|fe faces IH]; cbn [processed andb]; congruence.
Qed.

Lemma processed_last (n : nat) (kp : bool) (faces : list (Face * SpeechEnv)) :
  faces <> [] -> exists earlier fe, processed n kp faces = earlier ++ [fe].
Proof.
  induction faces as [|fe faces IH]; [congruence|]. intros _. cbn [processed].
  destruct (kp && lacksKeypoints n (fst fe)).
  - exists [], fe. reflexivity.
  - destruct faces as [|fe' faces].
    + exists [], fe. reflexivity.
    + destruct IH as (earlier & last & H); [discriminate|].
      rewrite H. exists (fe :: earlier), last. reflexivity.
Qed.

(** The [forEach] of [drawResults]: the world it leaves is the one the
    bounding-box blocks of the faces it got to have made, and it throws
    exactly when key points are shown and a face has too few. *)
Lemma forEach_drawFace (n : nat) (cw ch : number) (bb kp : bool)
      (faces : list (Face * SpeechEnv)) (w : World) :
  let result := forEach (drawFace n cw ch bb kp) faces w in
  world_of result = fold_left (drawFaceBox cw ch bb) (processed n kp faces) w /\
  result = (if keypointsMissing n kp faces
            then Thrown (world_of result) KEYPOINT_ERROR
            else Normal (world_of result)).
Proof.
  cbv zeta. unfold keypointsMissing. revert w.
  induction faces as [|fe faces IH]; intros w.
  - cbn. destruct kp; auto.
  - cbn [forEach processed existsb]. unfold drawFace.
    destruct (kp && lacksKeypoints n (fst fe)) eqn:E.
    + apply andb_true_iff in E. destruct E as [-> ->]. cbn. auto.
    + cbn [fold_left]. destruct (IH (drawFaceBox cw ch bb w fe)) as [H1 H2].
      split; [exact H1|]. rewrite H2 at 1.
      destruct kp; cbn [andb] in E |- *; [rewrite E|]; reflexivity.
Qed.

Lemma drawResults_faces (n : nat) (cw ch : number) (bb kp : bool)
      (fe : Face * SpeechEnv) (faces : list (Face * SpeechEnv)) (w : World) :
  let result := drawResults n cw ch (fe :: faces) bb kp w in
  world_of result =
    fold_left (drawFaceBox cw ch bb) (processed n kp (fe :: faces)) w /\
  result = (if keypointsMissing n kp (fe :: faces)
            then Thrown (world_of result) KEYPOINT_ERROR
            else Normal (world_of result)).
Proof.
  cbv zeta. unfold drawResults. cbn [List.length Nat.eqb].
  apply forEach_drawFace.
Qed.

(** C6: every write of the status line keeps the contract of the word
    "Centered".  After [updateFaceStatus] the text contains it exactly when
    the face was found centered; after [drawResults] on a frame with
    faces, however it ends, it contains it exactly when the face evaluated
    last is centered: the last face of the frame, unless the key-point
    loop threw on an earlier one; the no-face text written by
    [drawResults], the not-centered text ("Not centered", with a small c)
    and the waiting text of the page as loaded do not contain it, and the
    centered text does. *)
Theorem status_text_contract :
  (forall (isCentered : bool) (env : SpeechEnv) (w : World),
      faceStatus (doc w) <> None ->
      exists text,
        statusText (updateFaceStatus isCentered env w) = Some text /\
        includes text "Centered" = isCentered) /\
  (forall (n : nat) (cw ch : number) (kp : bool) (faces : list (Face * SpeechEnv))
          (w : World),
      faceStatus (doc w) <> None -> faces <> [] ->
      exists earlier fe text,
        processed n kp faces = earlier ++ [fe] /\
        (keypointsMissing n kp faces = false -> earlier ++ [fe] = faces) /\
        statusText (world_of (drawResults n cw ch faces true kp w)) = Some text /\
        includes text "Centered" = isFaceCentered (fst fe) cw ch) /\
  (forall (n : nat) (cw ch : number) (bb kp : bool) (w : World),
      faceStatus (doc w) <> None ->
      drawResults n cw ch [] bb kp w =
        Normal (world_of (drawResults n cw ch [] bb kp w)) /\
      statusText (world_of (drawResults n cw ch [] bb kp w)) = Some NO_FACE_STATUS) /\
  includes NO_FACE_STATUS "Centered" = false /\
  includes (NOT_CENTERED_STATUS ++ " " ++ cross_mark)%string "Centered" = false /\
  includes (CENTERED_STATUS ++ " " ++ check_mark)%string "Centered" = true /\
  statusText (page true) = Some INITIAL_STATUS /\
  includes INITIAL_STATUS "Centered" = false.
Proof.
  split; [|split; [|split]].
  - intros isCentered env w Hs. exists (textContent (statusLine isCentered)).
    unfold statusText. rewrite (updateFaceStatus_status _ _ _ Hs).
    split; [reflexivity|]. destruct isCentered; reflexivity.
  - intros n cw ch kp faces w Hs Hne.
    destruct (processed_last n kp faces Hne) as (earlier & fe & Hp).
    exists earlier, fe, (textContent (statusLine (isFaceCentered (fst fe) cw ch))).
    split; [exact Hp|].
    split; [intros Hk; rewrite <- Hp; now apply processed_all|].
    destruct faces as [|fe0 faces]; [congruence|].
    destruct (drawResults_faces n cw ch true kp fe0 faces w) as [-> _].
    rewrite Hp. unfold statusText.
    destruct (drawFaces_last cw ch earlier fe w Hs) as [-> _].
    split; [reflexivity|]. destruct (isFaceCentered (fst fe) cw ch); reflexivity.
  - intros n cw ch bb kp w Hs. unfold statusText, drawResults.
    cbn [List.length Nat.eqb forEach world_of].
    destruct (faceStatus (doc w)); [split; reflexivity | congruence].
  - repeat split; reflexivity.
Qed.

Lemma status_text_contract_witness :
  faceStatus (doc (page true)) <> None /\
  [(centred_face, speaking_at 10000)] <> [] /\
  exists earlier fe text,
    processed 6%nat false [(centred_face, speaking_at 10000)] = earlier ++ [fe] /\
    (keypointsMissing 6%nat false [(centred_face, speaking_at 10000)] = false ->
     earlier ++ [fe] = [(centred_face, speaking_at 10000)]) /\
    statusText (world_of (drawResults 6%nat 640 480 [(centred_face, speaking_at 10000)]
                                      true false (page true))) = Some text /\
    includes text "Centered" = isFaceCentered (fst fe) 640 480.
Proof.
  assert (H : faceStatus (doc (page true)) <> None) by discriminate.
  assert (H' : [(centred_face, speaking_at 10000)] <> []) by discriminate.
  split; [exact H|]. split; [exact H'|].
  exact (proj1 (proj2 status_text_contract) 6%nat 640 480 false
               [(centred_face, speaking_at 10000)] (page true) H H').
Defined.

(** C10: on a frame that has faces, with the bounding-box option off,
    [drawResults], however it ends, leaves the status text, the cached
    guidance and the announcement record as they were; indeed it leaves
    the whole world as it was. *)
Theorem no_bounding_box_no_effect (n : nat) (cw ch : number) (kp : bool)
        (faces : list (Face * SpeechEnv)) (w : World) :
  faces <> [] ->
  let w' := world_of (drawResults n cw ch faces false kp w) in
  statusText w' = statusText w /\
  currentFaceGuidance w' = currentFaceGuidance w /\
  util w' = util w /\
  w' = w.
Proof.
  intros Hne. assert (H : world_of (drawResults n cw ch faces false kp w) = w).
  { destruct faces as [|fe faces]; [congruence|].
    destruct (drawResults_faces n cw ch false kp fe faces w) as [-> _].
    generalize (processed n kp (fe :: faces)). intros l.
    induction l as [|[f e] l IH]; [reflexivity|]. exact IH. }
  cbv zeta. rewrite H. auto.
Qed.

Lemma no_bounding_box_no_effect_witness :
  [(left_face, speaking_at 10000)] <> [] /\
  world_of (drawResults 6%nat 640 480 [(left_face, speaking_at 10000)] false true (page true))
    = page true.
Proof.
  assert (H : [(left_face, speaking_at 10000)] <> []) by discriminate.
  split; [exact H|].
  exact (proj2 (proj2 (proj2 (no_bounding_box_no_effect 6%nat 640 480 true
           [(left_face, speaking_at 10000)] (page true) H)))).
Defined.

(** C8 as the specification states it fails: after a frame with a centered
    face, a frame with a face that is not centered calls the throttle with
    interrupt off, not on; and a frame with two faces calls it twice, once
    per face, not once for the first. *)
Lemma first_face_and_transition_counterexample :
  let w0 := page true in
  let frame1 := [(centred_face, speaking_at 10000)] in
  let frame2 := [(left_face, speaking_at 10100)] in
  let both := [(centred_face, speaking_at 10000); (left_face, speaking_at 10100)] in
  let w1 := world_of (drawResults 6%nat 640 480 frame1 true false w0) in
  let w2 := world_of (drawResults 6%nat 640 480 frame2 true false w1) in
  statusIsCentered w1 = true /\
  isFaceCentered left_face 640 480 = false /\
  announcements (new_events w1 w2) = [("Move right.", false)] /\
  announcements (new_events w1 w2) <>
    claimedAnnouncements (statusIsCentered w1) frame2 640 480 /\
  announcements (new_events w0 (world_of (drawResults 6%nat 640 480 both true false w0))) =
    [(CENTERED_ANNOUNCEMENT, true); ("Move right.", false)] /\
  announcements (new_events w0 (world_of (drawResults 6%nat 640 480 both true false w0))) <>
    claimedAnnouncements (statusIsCentered w0) both 640 480.
Proof.
  vm_compute. repeat split; congruence.
Qed.

(** C8, amended: on a frame drawn with the bounding-box option on and a
    status line on the page, [drawResults] evaluates the faces of the
    frame in order and calls the throttle once per face: with the fixed
    centered message and interrupt on when that face is centered, and
    otherwise with the guidance composed for that face and interrupt off,
    whatever the frame before was.  It does so for every face of the
    frame and returns, unless key points are shown and a face has fewer
    than [NUM_KEYPOINTS] of them: then it throws at the first such face,
    after the call for that face, and the faces after it are not
    evaluated. *)
Theorem frame_announcements (n : nat) (cw ch : number) (kp : bool)
        (faces : list (Face * SpeechEnv)) (w : World) :
  faceStatus (doc w) <> None ->
  let result := drawResults n cw ch faces true kp w in
  announcements (trace (world_of result)) =
    announcements (trace w) ++
    map (fun fe => announcementFor (fst fe) cw ch) (processed n kp faces) /\
  (keypointsMissing n kp faces = false ->
     processed n kp faces = faces /\ result = Normal (world_of result)) /\
  (keypointsMissing n kp faces = true ->
     result = Thrown (world_of result) KEYPOINT_ERROR).
Proof.
  intros Hs. cbv zeta.
  destruct faces as [|fe faces].
  - unfold drawResults, keypointsMissing. cbn [List.length Nat.eqb forEach world_of
      processed map existsb]. rewrite andb_false_r.
    split; [|split; [auto | discriminate]].
    destruct (faceStatus (doc w)); cbn; now rewrite app_nil_r.
  - destruct (drawResults_faces n cw ch true kp fe faces w) as [Hw Hr].
    cbv zeta in Hw, Hr. split; [|split].
    + rewrite Hw. apply drawFaces_announcements. exact Hs.
    + intros Hk. rewrite Hk in Hr. split; [now apply processed_all | exact Hr].
    + intros Hk. rewrite Hk in Hr. exact Hr.
Qed.

Lemma frame_announcements_witness :
  faceStatus (doc (page true)) <> None /\
  announcements (trace (world_of (drawResults 6%nat 640 480
     [(centred_face, speaking_at 10000); (left_face, speaking_at 10100)]
     true false (page true)))) =
  [announcementFor centred_face 640 480; announcementFor left_face 640 480].
Proof.
  assert (H : faceStatus (doc (page true)) <> None) by discriminate.
  split; [exact H|].
  exact (proj1 (frame_announcements 6%nat 640 480 false
           [(centred_face, speaking_at 10000); (left_face, speaking_at 10100)]
           (page true) H)).
Defined.

(** With key points shown, a frame of two faces that carry no key points
    ends at the first of them: its status and announcement are made, the
    second face is never evaluated, and the call throws. *)
Example frame_ends_at_face_without_keypoints :
  let faces := [(centred_face, speaking_at 10000); (left_face, speaking_at 10100)] in
  let result := drawResults 6%nat 640 480 faces true true (page true) in
  result = Thrown (world_of result) KEYPOINT_ERROR /\
  processed 6%nat true faces = [(centred_face, speaking_at 10000)] /\
  announcements (trace (world_of result)) = [(CENTERED_ANNOUNCEMENT, true)] /\
  statusIsCentered (world_of result) = true.
Proof. vm_compute. repeat split; reflexivity. Qed.

End Frames.

(* ================================================================== *)
(** * The render loop *)
(* ================================================================== *)

Section RenderLoop.
Import JS Util Index Spec Example.
Local Open Scope string_scope.
Local Open Scope float_scope.
Local Open Scope list_scope.

Lemma endEstimateFaceStats_frame (t : float) (w : World) :
  let w' := world_of (endEstimateFaceStats t w) in
  doc w' = doc w /\ detector (vars w') = detector (vars w) /\
  util w' = util w /\ currentFaceGuidance w' = currentFaceGuidance w /\
  STATE w' = STATE w /\ spoken (trace w') = spoken (trace w).
Proof.
  unfold endEstimateFaceStats. cbv zeta.
  destruct (PrimFloat.leb _ _); [destruct (stats (vars w))|]; cbn;
    rewrite ?spoken_app; cbn; rewrite ?app_nil_r; auto 10.
Qed.

(** What [drawResults] itself does when handed no face: it writes the
    no-face text and makes no call to the platform. *)
Lemma drawResults_no_faces (n : nat) (cw ch : number) (bb kp : bool) (w : World) :
  faceStatus (doc w) <> None ->
  let w' := world_of (drawResults n cw ch [] bb kp w) in
  statusText w' = Some NO_FACE_STATUS /\ trace w' = trace w /\ util w' = util w.
Proof.
  intros Hs. unfold drawResults, statusText. cbn [List.length Nat.eqb forEach world_of].
  destruct (faceStatus (doc w)); [cbn; auto | congruence].
Qed.

(** C7: the code does not do what the claim says.  [renderResult] hands a
    frame to [drawResults] only when the detector reported at least one
    face, so a frame with zero faces leaves the page, and with it the
    status text, as it was, and speaks nothing; the branch of [drawResults]
    that writes the no-face text is never reached from the render loop.
    After a frame with a centered face, a frame with no face still shows
    the centered text, and a capture is still let through. *)
Theorem zero_faces_status_stale :
  (forall (n : nat) (g : GuiEnv) (t0 t1 : float) (w : World),
      let w' := world_of (renderResult n
                  {| gui := g; inference := Faces []; beginTime := t0; endTime := t1 |} w) in
      doc w' = doc w /\ spoken (trace w') = spoken (trace w)) /\
  (forall n : nat,
   let w1 := world_of (renderResult n
               (frame_with (Faces [(centred_face, speaking_at 10000)]) 400 420) (page true)) in
   let w2 := world_of (renderResult n (frame_with (Faces []) 500 520) w1) in
   statusText w2 = Some (CENTERED_STATUS ++ " " ++ check_mark)%string /\
   statusText w2 <> Some NO_FACE_STATUS /\
   statusIsCentered w2 = true).
Proof.
  split.
  - intros n g t0 t1 w. cbv zeta. unfold renderResult, drawFrame.
    destruct (detector (vars w)) as [d|]; cbn [inference beginTime endTime].
    + pose proof (endEstimateFaceStats_frame t1 (beginEstimateFaceStats t0 w)) as H.
      cbv zeta in H. destruct (endEstimateFaceStats t1 _) as [w'|w' err];
        cbn [world_of] in *; destruct H as (Hd & _ & _ & _ & _ & Hsp);
        cbn [List.length Nat.ltb Nat.leb andb emit doc trace world_of];
        rewrite ?spoken_app; cbn [spoken]; rewrite ?app_nil_r; auto.
    + cbn. rewrite spoken_app. cbn. rewrite app_nil_r. auto.
  - intros n. vm_compute. repeat split; congruence.
Qed.

(** What the frame of a failed inference does, however it completes: the
    detector is disposed and set to null, and the error is shown. *)
Lemma inference_failure_disposes (n : nat) (env : FrameEnv) (w : World)
      (d : nat) (error : string) :
  detector (vars w) = Some d -> inference env = Throws error ->
  let w' := world_of (renderResult n env w) in
  detector (vars w') = None /\
  firstn 2 (new_events w w') = [DetectorDispose d; Alert error] /\
  doc w' = doc w /\ util w' = util w.
Proof.
  intros Hd Hi. cbv zeta. unfold renderResult, drawFrame, new_events. rewrite Hd, Hi.
  set (w1 := emit (Alert error) _).
  assert (Ht1 : trace w1 = trace w ++ [DetectorDispose d; Alert error])
    by (cbn; rewrite <- app_assoc; reflexivity).
  unfold endEstimateFaceStats. cbv zeta.
  destruct (PrimFloat.leb _ _); [destruct (stats (vars w1))|];
    cbn [world_of emit with_vars with_detector with_inference_stats vars trace doc util detector];
    fold (trace w1); rewrite ?Ht1, <- ?app_assoc;
    rewrite skipn_app, skipn_all, Nat.sub_diag; cbn; auto.
Qed.

(** With no detector a frame only redraws the video: no inference is
    attempted, whatever the detector would have answered. *)
Lemma null_detector_frame (n : nat) (env : FrameEnv) (w : World) :
  detector (vars w) = None -> renderResult n env w = Normal (emit DrawCtx w).
Proof. intros Hd. unfold renderResult, drawFrame. rewrite Hd. reflexivity. Qed.

(** While the detector is null and the GUI installs no new one, the loop
    goes on frame after frame, and neither the page nor the announcement
    record changes. *)
Lemma null_detector_loop (n : nat) (frames : list FrameEnv) (w : World) :
  detector (vars w) = None -> gui_unchanged w ->
  exists w', renderLoop n frames w = Normal w' /\
    detector (vars w') = None /\ doc w' = doc w /\ util w' = util w /\
    trace w' = trace w ++ flat_map (fun _ => [DrawCtx; RequestAnimationFrame]) frames.
Proof.
  revert w. induction frames as [|env frames IH]; intros w Hd Hg.
  - exists w. cbn. rewrite app_nil_r. auto.
  - destruct Hg as (H1 & H2 & H3 & H4 & H5).
    cbn [renderLoop]. unfold renderPrediction, checkGuiUpdate.
    rewrite H1, H2. cbn [orb]. rewrite H3, H4, H5. cbn [orb negb].
    rewrite ?H3. cbn [negb].
    rewrite (null_detector_frame n env w Hd).
    set (w1 := emit RequestAnimationFrame (emit DrawCtx w)).
    destruct (IH w1) as (w' & Hr & Hd' & Hdoc & Hu & Ht);
      [exact Hd | repeat split; assumption |].
    exists w'. rewrite Hr. repeat split; auto.
    rewrite Ht. cbn. rewrite <- !app_assoc. reflexivity.
Qed.

(** On localhost, where the stats panel exists, the frame of a failed
    inference completes and asks for the next frame. *)
Lemma inference_failure_survived_on_localhost (n : nat) (env : FrameEnv) (w : World)
      (d : nat) (error : string) :
  detector (vars w) = Some d -> inference env = Throws error ->
  stats (vars w) = true -> gui_unchanged w ->
  exists w', renderPrediction n env w = Normal w' /\
    detector (vars w') = None /\ gui_unchanged w' /\
    last (trace w') DrawCtx = RequestAnimationFrame.
Proof.
  intros Hd Hi Hst (H1 & H2 & H3 & H4 & H5).
  unfold renderPrediction, checkGuiUpdate.
  rewrite H1, H2. cbn [orb]. rewrite H3, H4, H5. cbn [orb negb].
  rewrite ?H3. cbn [negb].
  unfold renderResult, drawFrame. rewrite Hd, Hi.
  unfold endEstimateFaceStats. cbv zeta.
  cbn [emit with_vars with_detector vars stats beginEstimateFaceStats with_inference_stats].
  rewrite Hst.
  destruct (PrimFloat.leb _ _); eexists; (split; [reflexivity|]);
    cbn; rewrite ?last_last; repeat split; auto.
Qed.

(** Without the stats panel, the frame of a failed inference throws as
    soon as a panel update is due, and no further frame is asked for. *)
Lemma inference_failure_halts_without_stats (n : nat) (env : FrameEnv) (w : World)
      (d : nat) (error : string) :
  detector (vars w) = Some d -> inference env = Throws error ->
  stats (vars w) = false -> gui_unchanged w ->
  (1000 <=? endTime env - lastPanelUpdate (vars w)) = true ->
  exists w' e,
    renderPrediction n env w = Thrown w' e /\
    detector (vars w') = None /\
    new_events w w' = [DetectorDispose d; Alert error].
Proof.
  intros Hd Hi Hst (H1 & H2 & H3 & H4 & H5) Hdue.
  unfold renderPrediction, checkGuiUpdate.
  rewrite H1, H2. cbn [orb]. rewrite H3, H4, H5. cbn [orb negb].
  rewrite ?H3. cbn [negb].
  unfold renderResult, drawFrame. rewrite Hd, Hi.
  unfold endEstimateFaceStats. cbv zeta.
  cbn [emit with_vars with_detector vars stats beginEstimateFaceStats
       with_inference_stats lastPanelUpdate].
  rewrite Hst, Hdue. eexists. eexists. split; [reflexivity|].
  split; [reflexivity|]. unfold new_events.
  cbn [trace with_vars emit beginEstimateFaceStats].
  rewrite <- app_assoc, skipn_app, skipn_all, Nat.sub_diag. reflexivity.
Qed.

(** C9: the code does not do what the claim says.  On the deployed page
    (not localhost) [app] never sets up the stats panel, and
    [endEstimateFaceStats], which [renderResult] calls right after the
    catch block, dereferences it once 1000 ms have passed since the last
    panel update.  There the frame of a failed inference still disposes the
    detector, sets it to null and shows the error, but then throws: that
    run of [renderPrediction] never asks for another frame, and no later
    frame is rendered. *)
Theorem production_inference_failure_halts_loop :
  forall (n : nat) (rest : list FrameEnv),
    exists w' error,
      renderLoop n (frame_with (Throws "model output mismatch") 500 1500 :: rest)
                 (page false) = Thrown w' error /\
      detector (vars w') = None /\
      trace w' = [DetectorDispose 0; Alert "model output mismatch"] /\
      ~ In RequestAnimationFrame (trace w').
Proof.
  intros n rest. eexists. eexists. split; [reflexivity|].
  cbn. repeat split; auto. intros [H|[H|[]]]; discriminate.
Qed.

End RenderLoop.

(* ================================================================== *)
(** * Binary64 arithmetic: the order of rounded thresholds *)
(* ================================================================== *)

Section Order.
Import Binary64.
Local Open Scope Z_scope.

(** On valid floats that are not NaN, [SFcompare] is the order of [ival]. *)
Lemma SFcompare_ival (a b : spec_float) :
  valid_binary a = true -> valid_binary b = true ->
  a <> S754_nan -> b <> S754_nan ->
  SFcompare a b = Some (ival a ?= ival b).
Proof.
  intros Ha Hb Hna Hnb.
  destruct (SFcompare a b) as [[| |]|] eqn:Ec.
  - (* Eq *)
    f_equal. symmetry. apply Z.compare_eq_iff.
    pose proof huge_bound as Hh.
    destruct a as [sa|sa| |sa ma ea], b as [sb|sb| |sb mb eb];
      try congruence; cbn [ival]; cbn in Ec;
      try pose proof (magnitude_bound _ _ _ Ha);
      try pose proof (magnitude_bound _ _ _ Hb);
      repeat match goal with s : bool |- _ => destruct s end;
      try discriminate; try reflexivity.
    + destruct (Z.compare_spec ea eb); try discriminate. subst eb.
      change (Pos.compare_cont Eq ma mb) with (Pos.compare ma mb) in Ec.
      destruct (Pos.compare_spec ma mb); try discriminate. subst. reflexivity.
    + destruct (Z.compare_spec ea eb); try discriminate. subst eb.
      change (Pos.compare_cont Eq ma mb) with (Pos.compare ma mb) in Ec.
      destruct (Pos.compare_spec ma mb); try discriminate. subst. reflexivity.
  - (* Lt *)
    f_equal. symmetry. apply Z.compare_lt_iff.
    apply SFltb_ival; try assumption. unfold SFltb. now rewrite Ec.
  - (* Gt *)
    f_equal. symmetry. apply Z.compare_gt_iff.
    apply SFltb_ival; try assumption. unfold SFltb.
    destruct a as [sa|sa| |sa ma ea], b as [sb|sb| |sb mb eb];
      try congruence; cbn in Ec |- *;
      repeat match goal with s : bool |- _ => destruct s end;
      try discriminate; try reflexivity.
    + destruct (Z.compare_spec ea eb) as [He|He|He]; try discriminate.
      * subst eb. rewrite Z.compare_refl.
        change (Pos.compare_cont Eq ma mb) with (Pos.compare ma mb) in Ec.
        change (Pos.compare_cont Eq mb ma) with (Pos.compare mb ma).
        rewrite Pos.compare_antisym. destruct (Pos.compare ma mb); cbn in *; congruence.
      * apply Z.compare_gt_iff in He. now rewrite He.
    + destruct (Z.compare_spec ea eb) as [He|He|He]; try discriminate.
      * subst eb. rewrite Z.compare_refl.
        change (Pos.compare_cont Eq ma mb) with (Pos.compare ma mb) in Ec.
        change (Pos.compare_cont Eq mb ma) with (Pos.compare mb ma).
        rewrite Pos.compare_antisym. destruct (Pos.compare ma mb); cbn in *; congruence.
      * apply Z.compare_lt_iff in He. now rewrite He.
  - (* not comparable *)
    destruct a as [sa|sa| |sa ma ea], b as [sb|sb| |sb mb eb];
      try congruence; cbn in Ec;
      repeat match goal with s : bool |- _ => destruct s end; discriminate.
Qed.

Lemma SFltb_iff (a b : spec_float) :
  valid_binary a = true -> valid_binary b = true ->
  a <> S754_nan -> b <> S754_nan ->
  SFltb a b = true <-> ival a < ival b.
Proof.
  intros Ha Hb Hna Hnb. unfold SFltb. rewrite (SFcompare_ival a b Ha Hb Hna Hnb).
  destruct (Z.compare_spec (ival a) (ival b)); split; intros; try discriminate; try lia; reflexivity.
Qed.

Lemma SFleb_iff (a b : spec_float) :
  valid_binary a = true -> valid_binary b = true ->
  a <> S754_nan -> b <> S754_nan ->
  SFleb a b = true <-> ival a <= ival b.
Proof.
  intros Ha Hb Hna Hnb. unfold SFleb. rewrite (SFcompare_ival a b Ha Hb Hna Hnb).
  destruct (Z.compare_spec (ival a) (ival b)); split; intros; try discriminate; try lia; reflexivity.
Qed.

Lemma ival_opp (x : spec_float) : ival (SFopp x) = - ival x.
Proof. destruct x as [s|s| |s m e]; cbn; try destruct s; cbn; lia. Qed.

Lemma ival_abs (x : spec_float) : ival (SFabs x) = Z.abs (ival x).
Proof.
  assert (Hh : 0 < huge) by (unfold huge; apply Z.pow_pos_nonneg; lia).
  destruct x as [s|s| |s m e]; cbn [SFabs ival]; try reflexivity.
  - destruct s; lia.
  - pose proof (Pos2Z.is_pos m). 
    assert (0 <= 2 ^ (e + 1074)) by (apply Z.pow_nonneg; lia).
    destruct s; nia.
Qed.

Lemma ival_nonneg (x : spec_float) : SFnonneg x -> 0 <= ival x.
Proof.
  assert (Hh : 0 < huge) by (unfold huge; apply Z.pow_pos_nonneg; lia).
  destruct x as [s|s| |s m e]; cbn [SFnonneg ival]; intros H; subst; lia.
Qed.

Lemma SFeqb_self_not_nan (x : spec_float) : SFeqb x x = true -> x <> S754_nan.
Proof. intros H ->. discriminate. Qed.

(** A float at least one is normal: dividing it by eight is exact. *)
Lemma eighth_valid (m : positive) (e : Z) :
  valid_binary (S754_finite false m e) = true ->
  SFleb (Prim2SF 1) (S754_finite false m e) = true ->
  valid_binary (S754_finite false m (e - 3)) = true.
Proof.
  intros Hv Hle.
  replace (Prim2SF 1) with (S754_finite false 4503599627370496 (-52)) in Hle by reflexivity.
  destruct (valid_finite _ _ _ Hv) as (He & Hm & _ & _).
  assert (Hexp : -52 <= e).
  { unfold SFleb, SFcompare in Hle.
    destruct (Z.compare_spec (-52) e) as [H|H|H]; try lia; discriminate. }
  cbn [SpecFloat.valid_binary] in *. unfold bounded, canonical_mantissa in *.
  rewrite andb_true_iff, Z.eqb_eq, Z.leb_le in *. rewrite !fexp64 in *.
  change (emax - prec) with 971 in *. lia.
Qed.

(** For a size [w] of one or more, [w * 0.1] does not exceed [w * 0.15]. *)
Lemma SF_tenth_le_fifteenth (W : spec_float) :
  valid_binary W = true -> SFleb (Prim2SF 1) W = true ->
  let t10 := SFmul prec emax W (Prim2SF 0.1) in
  let t15 := SFmul prec emax W (Prim2SF 0.15) in
  t10 <> S754_nan /\ t15 <> S754_nan /\ 0 <= ival t10 <= ival t15.
Proof.
  intros HW Hle. cbv zeta. rewrite !(SFmul_comm W).
  replace (Prim2SF 0.1) with (S754_finite false 7205759403792794 (-56)) by reflexivity.
  replace (Prim2SF 0.15) with (S754_finite false 5404319552844595 (-55)) by reflexivity.
  destruct W as [s|s| |s m e].
  - discriminate.
  - destruct s; [discriminate|]. cbn [SFmul xorb ival].
    assert (0 < huge) by (unfold huge; apply Z.pow_pos_nonneg; lia).
    repeat split; try discriminate; lia.
  - discriminate.
  - destruct s; [discriminate|].
    pose proof (eighth_valid m e HW Hle) as Hz.
    cbn [SFmul xorb].
    destruct (scale_down 7205759403792794 m (-53) (e - 3) Hz ltac:(lia) ltac:(cbn; lia))
      as [Hn10 Hdown].
    destruct (scale_up 5404319552844595 m (-52) (e - 3) Hz ltac:(lia) ltac:(cbn; lia))
      as [Hn15 Hup].
    cbv zeta in *.
    replace (-53 + (e - 3)) with (-56 + e) in * by lia.
    replace (-52 + (e - 3)) with (-55 + e) in * by lia.
    repeat split; try assumption; [|lia].
    pose proof (ival_nonneg _
      (binary_round_aux_nonneg (Zpos (7205759403792794 * m)) (-56 + e) loc_Exact)).
    lia.
Qed.

Lemma SFopp_not_nan (x : spec_float) : x <> S754_nan -> SFopp x <> S754_nan.
Proof. destruct x; cbn; congruence. Qed.

Lemma SFabs_not_nan (x : spec_float) : x <> S754_nan -> SFabs x <> S754_nan.
Proof. destruct x; cbn; congruence. Qed.

(** A number outside the band of 0.15 times a size is outside the band of
    0.1 times that size, on the same side. *)
Lemma outside_band_has_direction (x w : float) :
  PrimFloat.eqb x x = true -> PrimFloat.leb 1 w = true ->
  PrimFloat.leb (abs x) (w * 0.15) = false ->
  PrimFloat.ltb x ((- w) * 0.1) = true \/ PrimFloat.ltb (w * 0.1) x = true.
Proof.
  rewrite FloatAxioms.eqb_spec, FloatAxioms.leb_spec. intros Hx Hw.
  pose proof (SFeqb_self_not_nan _ Hx) as HnX.
  pose proof (Prim2SF_valid x) as HvX.
  pose proof (Prim2SF_valid (abs x)) as HvA.
  pose proof (Prim2SF_valid (w * 0.1)) as Hv10.
  pose proof (Prim2SF_valid (w * 0.15)) as Hv15.
  pose proof (Prim2SF_valid ((- w) * 0.1)) as HvN.
  destruct (SF_tenth_le_fifteenth (Prim2SF w) (Prim2SF_valid w) Hw) as (Hn10 & Hn15 & Hord).
  cbv zeta in *.
  rewrite FloatAxioms.leb_spec, !FloatAxioms.ltb_spec.
  rewrite (mul_spec (- w)), opp_spec, SFmul_opp_l in HvN |- *.
  rewrite abs_spec in HvA |- *. rewrite mul_spec in Hv10, Hv15 |- *. rewrite (mul_spec w 0.1).
  fold SF64mul in *. unfold SF64mul in *.
  set (t10 := SFmul prec emax (Prim2SF w) (Prim2SF 0.1)) in *.
  set (t15 := SFmul prec emax (Prim2SF w) (Prim2SF 0.15)) in *.
  intros Hout.
  assert (Habs : ival t15 < Z.abs (ival (Prim2SF x))).
  { rewrite <- ival_abs.
    destruct (Z.lt_ge_cases (ival t15) (ival (SFabs (Prim2SF x)))) as [H|H]; [exact H|].
    apply (SFleb_iff _ _ HvA Hv15 (SFabs_not_nan _ HnX) Hn15) in H. congruence. }
  destruct (Z.lt_ge_cases (ival (Prim2SF x)) 0) as [Hneg|Hpos].
  - left. apply (SFltb_iff _ _ HvX HvN HnX (SFopp_not_nan _ Hn10)).
    rewrite ival_opp. lia.
  - right. apply (SFltb_iff _ _ Hv10 HvX Hn10 HnX). lia.
Qed.

End Order.

(* ================================================================== *)
(** * Guidance: further properties *)
(* ================================================================== *)

Section GuidanceFacts.
Import JS Util Spec Example Observe Inputs.
Local Open Scope string_scope.
Local Open Scope float_scope.

Ltac case_comparisons :=
  unfold gtb in *;
  repeat match goal with
         | |- context [PrimFloat.ltb ?a ?b] =>
           let E := fresh "E" in destruct (PrimFloat.ltb a b) eqn:E
         end.

(** X1: whatever the face and the frame, the guidance is a sentence: it is
    not empty, it ends with a period, and it is the almost-centered
    fallback or names a direction or a distance to move. *)
Theorem guidance_is_a_sentence (face : Face) (width height : number) :
  let g := getFacePositionGuidance face width height in
  g <> "" /\
  (exists body, g = (body ++ ".")%string) /\
  (g = FALLBACK \/ namesDirection g = true \/
   includes g "Move closer to the camera" = true \/
   includes g "Move farther from the camera" = true).
Proof.
  cbv zeta. rewrite guidance_compose. split; [|split].
  - unfold horizontalClause, verticalClause, distanceClause.
    case_comparisons; discriminate.
  - unfold composeGuidance. destruct (filter _ _) as [|part parts].
    + exists "Almost centered. Make small adjustments". reflexivity.
    + eexists. reflexivity.
  - unfold horizontalClause, verticalClause, distanceClause.
    case_comparisons; vm_compute; auto.
Qed.

(** X2: in a frame of at least one pixel each way, a face that is not
    centered (and whose offsets are numbers) is told a direction to move
    in, never the almost-centered fallback: the band of the centering test
    contains the band of the guidance. *)
Theorem off_centre_face_gets_direction (face : Face) (width height : number) :
  pixels width -> pixels height ->
  isNumber (offsetX (box face) width) -> isNumber (offsetY (box face) height) ->
  isFaceCentered face width height = false ->
  namesDirection (getFacePositionGuidance face width height) = true /\
  getFacePositionGuidance face width height <> FALLBACK.
Proof.
  intros Hw Hh Hx Hy Hc.
  assert (Hdir : horizontalClause (box face) width <> "" \/
                 verticalClause (box face) height <> "").
  { unfold isFaceCentered in Hc. cbv zeta in Hc. apply andb_false_iff in Hc.
    unfold horizontalClause, verticalClause, gtb.
    rewrite <- !neg_threshold, !(float_mul_comm 0.1).
    destruct Hc as [Hc|Hc].
    - left. destruct (outside_band_has_direction _ _ Hx Hw Hc) as [H|H];
        fold (offsetX (box face) width) in H; rewrite H;
        first [discriminate
              | match goal with |- context [if ?c then _ else _] => destruct c end;
                discriminate].
    - right. destruct (outside_band_has_direction _ _ Hy Hh Hc) as [H|H];
        fold (offsetY (box face) height) in H; rewrite H;
        first [discriminate
              | match goal with |- context [if ?c then _ else _] => destruct c end;
                discriminate].
  }
  rewrite guidance_compose.
  revert Hdir. unfold horizontalClause, verticalClause, distanceClause.
  case_comparisons; intros [H|H]; try (exfalso; apply H; reflexivity);
    vm_compute; split; congruence.
Qed.

Lemma off_centre_face_gets_direction_witness :
  pixels 640 /\ pixels 480 /\
  isNumber (offsetX (box left_face) 640) /\ isNumber (offsetY (box left_face) 480) /\
  isFaceCentered left_face 640 480 = false /\
  namesDirection (getFacePositionGuidance left_face 640 480) = true /\
  getFacePositionGuidance left_face 640 480 <> FALLBACK.
Proof.
  do 5 (split; [reflexivity|]).
  exact (off_centre_face_gets_direction left_face 640 480 eq_refl eq_refl eq_refl eq_refl
           eq_refl).
Defined.

End GuidanceFacts.

(* ================================================================== *)
(** * Announcement throttle: sequences of calls and failures *)
(* ================================================================== *)

Section ThrottleFacts.
Import JS Util Index Spec Example Observe Inputs.
Local Open Scope string_scope.
Local Open Scope list_scope.
Local Open Scope Z_scope.

(** One call either speaks, and then records its message and time and was
    not a repetition within 3000 ms, or leaves log and record alone. *)
Lemma speakMessage_step (message : string) (interrupt : bool)
      (env : SpeechEnv) (w : World) :
  let w' := speakMessage message interrupt env w in
  (spoken (trace w') = spoken (trace w) /\ util w' = util w) \/
  (spoken (trace w') = spoken (trace w) ++ [message] /\
   util w' = record message (now env) /\
   (message = lastAnnouncedStatus (util w) ->
    3000 <= now env - lastAnnouncementTime (util w))).
Proof.
  cbv zeta. unfold speakMessage. cbn [emit util trace].
  destruct (hasSpeech env); cbn [negb].
  - destruct (String.eqb_spec message (lastAnnouncedStatus (util w))) as [He|Hne];
      destruct (Z.ltb_spec (now env - lastAnnouncementTime (util w)) 3000) as [Hl|Hg];
      cbn [andb];
      destruct (interrupt && speaking env)%bool, (paused env), (speakThrows env);
      cbn [emit with_util util trace];
      rewrite ?spoken_app; cbn [spoken]; rewrite ?app_nil_r;
      first [left; split; reflexivity
            | right; repeat split; try reflexivity; intros; try lia; congruence].
  - left. cbn. rewrite !spoken_app. cbn. rewrite !app_nil_r. auto.
Qed.

(** X3: over any sequence of calls of the throttle, whatever the browser
    answers to each, a message handed to the synthesizer right after the
    same message comes 3000 ms or more after it; this holds from the
    record the sequence starts with. *)
Theorem emissions_spaced (calls : list Call) (w : World) :
  spaced (lastAnnouncedStatus (util w), lastAnnouncementTime (util w))
         (emissions calls w).
Proof.
  revert w. induction calls as [|[[message interrupt] env] calls IH]; intros w.
  - exact I.
  - cbn [emissions]. unfold announce. cbn [fst snd].
    destruct (speakMessage_step message interrupt env w) as [[Hs Hu]|(Hs & Hu & Hgap)];
      cbv zeta in Hs, Hu.
    + rewrite Hs, Nat.eqb_refl. cbn [app]. rewrite <- Hu. apply IH.
    + rewrite Hs, length_app. cbn [List.length].
      replace (Nat.eqb _ _) with false
        by (symmetry; apply Nat.eqb_neq; lia).
      cbn [app spaced fst snd]. split; [exact Hgap|].
      specialize (IH (speakMessage message interrupt env w)). rewrite Hu in IH. exact IH.
Qed.

(** X4: speech in progress is cancelled only by a call that goes on to
    speak: one that interrupts, is not held back, in a browser that can
    speak and is speaking.  A call held back, or made where speech does
    not exist, hands nothing to the synthesizer, keeps the record, and
    makes no call to the platform but the warning on the console. *)
Theorem speech_cancelled_only_to_speak (message : string) (interrupt : bool)
        (env : SpeechEnv) (w : World) :
  let w' := speakMessage message interrupt env w in
  let throttled :=
    String.eqb message (lastAnnouncedStatus (util w)) &&
    (now env - lastAnnouncementTime (util w) <? 3000) in
  (In SpeechCancel (new_events w w') <->
     hasSpeech env = true /\ throttled = false /\
     interrupt = true /\ speaking env = true) /\
  (hasSpeech env = false \/ throttled = true ->
     spoken (trace w') = spoken (trace w) /\ util w' = util w /\
     forall e, In e (new_events w w') ->
       e = Announce message interrupt \/
       e = ConsoleWarn "Speech synthesis not supported in this browser").
Proof.
  cbv zeta. unfold speakMessage, new_events. cbn [emit util trace].
  destruct (hasSpeech env), (String.eqb message _ && _)%bool,
    interrupt, (speaking env), (paused env), (speakThrows env);
    cbn [negb andb emit with_util util trace];
    rewrite <- ?app_assoc, skipn_app, skipn_all, Nat.sub_diag;
    cbn [skipn app]; rewrite ?spoken_app; cbn [spoken]; rewrite ?app_nil_r;
    (split; [split; [cbn; intuition discriminate | intuition discriminate || (cbn; intuition)]
            | intros [H|H]; try discriminate; repeat split;
              cbn; intuition]).
Qed.
(** X5: a call whose [speak] throws is logged and forgotten: nothing is
    handed to the synthesizer and the record is not updated, although
    speech in progress has been cancelled when the call interrupts; so
    the next call speaks, or is held back, exactly as if the failed one
    had not been made. *)
Theorem failed_speak_is_not_recorded (message : string) (interrupt : bool)
        (env : SpeechEnv) (w : World) :
  hasSpeech env = true -> speakThrows env = true ->
  let w1 := speakMessage message interrupt env w in
  let throttled :=
    String.eqb message (lastAnnouncedStatus (util w)) &&
    (now env - lastAnnouncementTime (util w) <? 3000) in
  util w1 = util w /\ spoken (trace w1) = spoken (trace w) /\
  (throttled = false ->
     last (new_events w w1) SpeechCancel = ConsoleError "Error speaking message:" /\
     (In SpeechCancel (new_events w w1) <-> interrupt = true /\ speaking env = true)) /\
  forall (message' : string) (interrupt' : bool) (env' : SpeechEnv),
    util (speakMessage message' interrupt' env' w1) =
    util (speakMessage message' interrupt' env' w) /\
    new_events w1 (speakMessage message' interrupt' env' w1) =
    new_events w (speakMessage message' interrupt' env' w).
Proof.
  intros Hs Ht. cbv zeta.
  assert (E : forall m i e x, new_events x (speakMessage m i e x) =
                              new_events {| util := util x; currentFaceGuidance := None;
                                            doc := doc x; STATE := STATE x; vars := vars x;
                                            timers := timers x; trace := [] |}
                                         (speakMessage m i e
                                            {| util := util x; currentFaceGuidance := None;
                                               doc := doc x; STATE := STATE x; vars := vars x;
                                               timers := timers x; trace := [] |})).
  { intros m i e x. unfold speakMessage, new_events. cbn [emit util trace].
    destruct (hasSpeech e), (String.eqb m _ && _)%bool,
      (i && speaking e)%bool, (paused e), (speakThrows e);
      cbn [negb emit with_util util trace app];
      rewrite <- ?app_assoc, skipn_app, skipn_all, Nat.sub_diag; reflexivity. }
  assert (U : forall m i e x y, util x = util y ->
                util (speakMessage m i e x) = util (speakMessage m i e y)).
  { intros m i e x y Hxy. unfold speakMessage. cbn [emit util]. rewrite Hxy.
    destruct (hasSpeech e), (String.eqb m _ && _)%bool,
      (i && speaking e)%bool, (paused e), (speakThrows e);
      cbn [negb emit with_util util]; auto. }
  assert (H1 : util (speakMessage message interrupt env w) = util w).
  { unfold speakMessage. rewrite Hs, Ht. cbn [negb emit util].
    destruct (String.eqb message _ && _)%bool, (interrupt && speaking env)%bool, (paused env);
      reflexivity. }
  split; [exact H1|].
  split.
  { unfold speakMessage. rewrite Hs, Ht. cbn [negb emit util trace].
    destruct (String.eqb message _ && _)%bool, (interrupt && speaking env)%bool, (paused env);
      cbn [emit trace]; rewrite ?spoken_app; cbn [spoken]; rewrite ?app_nil_r; reflexivity. }
  split.
  { intros Hth. unfold speakMessage, new_events. rewrite Hs, Ht. cbn [negb emit util trace].
    rewrite Hth.
    destruct interrupt, (speaking env), (paused env);
      cbn [andb emit trace]; rewrite <- ?app_assoc, skipn_app, skipn_all, Nat.sub_diag;
      cbn; intuition discriminate. }
  intros m' i' e'. split; [apply U; exact H1|].
  rewrite (E m' i' e' (speakMessage message interrupt env w)), (E m' i' e' w).
  rewrite H1.
  destruct (speakMessage_frame message interrupt env w) as (Hd & _ & Hst & Hv & Htm).
  cbv zeta in *. rewrite Hd, Hst, Hv, Htm. reflexivity.
Qed.

Lemma failed_speak_is_not_recorded_witness :
  let w := page true in
  let w1 := speakMessage "Move right." true (failing_at 10000) w in
  let throttled :=
    String.eqb "Move right." (lastAnnouncedStatus (util w)) &&
    (10000 - lastAnnouncementTime (util w) <? 3000) in
  util w1 = util w /\ spoken (trace w1) = spoken (trace w) /\
  (throttled = false ->
     last (new_events w w1) SpeechCancel = ConsoleError "Error speaking message:" /\
     (In SpeechCancel (new_events w w1) <-> true = true /\ true = true)) /\
  forall (message' : string) (interrupt' : bool) (env' : SpeechEnv),
    util (speakMessage message' interrupt' env' w1) =
    util (speakMessage message' interrupt' env' w) /\
    new_events w1 (speakMessage message' interrupt' env' w1) =
    new_events w (speakMessage message' interrupt' env' w).
Proof.
  exact (failed_speak_is_not_recorded "Move right." true (failing_at 10000) (page true)
           eq_refl eq_refl).
Defined.

End ThrottleFacts.

(* ================================================================== *)
(** * Drawing the faces of a frame: further properties *)
(* ================================================================== *)

Section FrameFacts.
Import JS Util Index Spec Example Observe Inputs.
Local Open Scope string_scope.
Local Open Scope float_scope.
Local Open Scope list_scope.

Lemma same_but_status_refl (d : Document) : same_but_status d d.
Proof. unfold same_but_status. destruct d; reflexivity. Qed.

Lemma same_but_status_trans (d1 d2 d3 : Document) :
  same_but_status d1 d2 -> same_but_status d2 d3 -> same_but_status d1 d3.
Proof.
  unfold same_but_status. destruct d1, d2, d3. cbn.
  intros H12 H23. inversion H12. inversion H23. subst. reflexivity.
Qed.

Lemma speakMessage_rest (message : string) (interrupt : bool)
      (env : SpeechEnv) (w : World) :
  let w' := speakMessage message interrupt env w in
  doc w' = doc w /\ currentFaceGuidance w' = currentFaceGuidance w /\
  STATE w' = STATE w /\ vars w' = vars w /\ timers w' = timers w /\
  exists l, spoken (trace w') = spoken (trace w) ++ l /\ (l = [] \/ l = [message]).
Proof.
  cbv zeta.
  destruct (speakMessage_frame message interrupt env w) as (H1 & H2 & H3 & H4 & H5).
  cbv zeta in *. repeat (split; [assumption|]).
  destruct (speakMessage_step message interrupt env w) as [[Hs _]|(Hs & _)];
    cbv zeta in Hs; rewrite Hs.
  - exists []. rewrite app_nil_r. auto.
  - exists [message]. auto.
Qed.

(** What [updateFaceStatus] touches: the status line, the trace and the
    announcement record; and what it may say. *)
Lemma updateFaceStatus_effect (isCentered : bool) (env : SpeechEnv) (w : World) :
  let w' := updateFaceStatus isCentered env w in
  same_but_status (doc w) (doc w') /\
  (faceStatus (doc w) = None -> w' = w) /\
  STATE w' = STATE w /\ vars w' = vars w /\ timers w' = timers w /\
  exists l, spoken (trace w') = spoken (trace w) ++ l /\
    (l = [] \/ l = [CENTERED_ANNOUNCEMENT] \/
     (exists g, currentFaceGuidance w = Some g /\ truthy (Some g) = true /\ l = [g]) \/
     (truthy (currentFaceGuidance w) = false /\ l = [NOT_CENTERED_ANNOUNCEMENT])).
Proof.
  cbv zeta. unfold updateFaceStatus.
  destruct (faceStatus (doc w)) as [st|] eqn:Est.
  2:{ repeat split; auto using same_but_status_refl.
      exists []. rewrite app_nil_r. auto. }
  destruct isCentered.
  - match goal with
    | |- context [speakMessage ?m ?i ?e ?x] =>
      destruct (speakMessage_rest m i e x) as (Hd & Hg & H3 & H4 & H5 & l & Hl & Hcase);
        cbv zeta in Hd, Hg, H3, H4, H5, Hl
    end.
    rewrite Hd. cbn [with_doc doc with_faceStatus takeAndDownloadButton].
    destruct (takeAndDownloadButton (doc w));
      cbn [emit doc STATE vars timers trace]; rewrite ?Hd, ?H3, ?H4, ?H5, ?spoken_app, ?Hl;
      cbn [with_doc doc STATE vars timers trace spoken]; rewrite ?app_nil_r;
      (split; [unfold same_but_status; destruct (doc w); reflexivity|]);
      (split; [discriminate|]); repeat (split; [reflexivity|]);
      exists l; (split; [reflexivity|]); destruct Hcase as [->| ->]; auto.
  - cbn [with_doc currentFaceGuidance].
    destruct (currentFaceGuidance w) as [g|] eqn:Eg;
      [destruct (truthy (Some g)) eqn:Et|];
      match goal with
      | |- context [speakMessage ?m ?i ?e ?x] =>
        destruct (speakMessage_rest m i e x) as (Hd & Hg & H3 & H4 & H5 & l & Hl & Hcase);
          cbv zeta in Hd, Hg, H3, H4, H5, Hl
      end;
      rewrite ?Hd, ?H3, ?H4, ?H5, ?Hl;
      cbn [with_doc doc STATE vars timers trace];
      (split; [unfold same_but_status; destruct (doc w); reflexivity|]);
      (split; [discriminate|]); repeat (split; [reflexivity|]);
      exists l; (split; [reflexivity|]); destruct Hcase as [->| ->]; eauto 10.
Qed.

Lemma guidance_is_not_the_generic_message (face : Face) (cw ch : number) :
  getFacePositionGuidance face cw ch <> NOT_CENTERED_ANNOUNCEMENT /\
  getFacePositionGuidance face cw ch <> CENTERED_ANNOUNCEMENT.
Proof.
  rewrite guidance_compose.
  unfold horizontalClause, verticalClause, distanceClause, gtb.
  repeat match goal with
         | |- context [PrimFloat.ltb ?a ?b] => destruct (PrimFloat.ltb a b)
         end; split; discriminate.
Qed.

Lemma drawFaceBox_effect_any (cw ch : number) (bb : bool) (w : World)
      (fe : Face * SpeechEnv) :
  let w' := drawFaceBox cw ch bb w fe in
  same_but_status (doc w) (doc w') /\
  STATE w' = STATE w /\ vars w' = vars w /\ timers w' = timers w /\
  (faceStatus (doc w) = None ->
     trace w' = trace w /\ util w' = util w /\ doc w' = doc w) /\
  exists l, spoken (trace w') = spoken (trace w) ++ l /\
    Forall (fun t => t = CENTERED_ANNOUNCEMENT \/ t = getFacePositionGuidance (fst fe) cw ch) l.
Proof.
  destruct fe as [face env]. cbn [drawFaceBox fst]. destruct bb.
  - set (w1 := with_guidance _ w).
    destruct (updateFaceStatus_effect (isFaceCentered face cw ch) env w1)
      as (Hd & Hnone & H3 & H4 & H5 & l & Hl & Hcase).
    cbv zeta in *. repeat (split; [assumption|]).
    split.
    + intros Hs. rewrite (Hnone Hs). auto.
    + exists l. split; [exact Hl|].
      destruct Hcase as [->|[->|[(g & Hg & _ & ->)|[Ht _]]]].
      * constructor.
      * constructor; [left; reflexivity | constructor].
      * unfold w1 in Hg. cbn [with_guidance currentFaceGuidance] in Hg.
        injection Hg as <-. constructor; [right; reflexivity | constructor].
      * cbn [w1 with_guidance currentFaceGuidance] in Ht.
        rewrite guidance_truthy in Ht. discriminate.
  - cbv zeta. repeat split; auto using same_but_status_refl.
    exists []. rewrite app_nil_r. auto.
Qed.

Lemma drawFaces_effect (cw ch : number) (bb : bool)
      (faces : list (Face * SpeechEnv)) (w : World) :
  let w' := fold_left (drawFaceBox cw ch bb) faces w in
  same_but_status (doc w) (doc w') /\
  STATE w' = STATE w /\ vars w' = vars w /\ timers w' = timers w /\
  (faceStatus (doc w) = None ->
     trace w' = trace w /\ util w' = util w /\ doc w' = doc w) /\
  exists l, spoken (trace w') = spoken (trace w) ++ l /\
    Forall (fun t => t = CENTERED_ANNOUNCEMENT \/
                     exists fe, In fe faces /\ t = getFacePositionGuidance (fst fe) cw ch) l.
Proof.
  revert w. induction faces as [|fe faces IH]; intros w; cbn [fold_left].
  - cbv zeta. repeat split; auto using same_but_status_refl.
    exists []. rewrite app_nil_r. auto.
  - destruct (drawFaceBox_effect_any cw ch bb w fe)
      as (Hd & H2 & H3 & H4 & Hnone & l1 & Hl1 & Hf1).
    destruct (IH (drawFaceBox cw ch bb w fe))
      as (Hd' & H2' & H3' & H4' & Hnone' & l2 & Hl2 & Hf2).
    cbv zeta in *.
    split; [eapply same_but_status_trans; eassumption|].
    split; [congruence|]. split; [congruence|]. split; [congruence|].
    split.
    + intros Hs. destruct (Hnone Hs) as (Ha & Hb & Hc).
      destruct Hnone' as (Ha' & Hb' & Hc'); [rewrite Hc; exact Hs|].
      repeat split; congruence.
    + exists (l1 ++ l2). split; [rewrite Hl2, Hl1, app_assoc; reflexivity|].
      apply Forall_app. split.
      * eapply Forall_impl; [|exact Hf1]. cbn. intros t [->| ->]; [auto|].
        right. exists fe. split; [left|]; reflexivity.
      * eapply Forall_impl; [|exact Hf2]. cbn. intros t [->|(fe' & Hin & ->)]; [auto|].
        right. exists fe'. split; [right; exact Hin | reflexivity].
Qed.

Lemma drawFaceBox_keeps_status (cw ch : number) (bb : bool) (w : World)
      (fe : Face * SpeechEnv) :
  faceStatus (doc w) <> None -> faceStatus (doc (drawFaceBox cw ch bb w fe)) <> None.
Proof.
  destruct fe as [face env]. cbn [drawFaceBox]. destruct bb; [|auto].
  intros Hs. rewrite updateFaceStatus_status; [discriminate | exact Hs].
Qed.

Lemma drawFaces_keep_status (cw ch : number) (bb : bool)
      (faces : list (Face * SpeechEnv)) (w : World) :
  faceStatus (doc w) <> None ->
  faceStatus (doc (fold_left (drawFaceBox cw ch bb) faces w)) <> None.
Proof.
  revert w. induction faces as [|fe faces IH]; intros w Hs; cbn [fold_left]; [exact Hs|].
  apply IH. apply drawFaceBox_keeps_status. exact Hs.
Qed.

Lemma processed_incl (n : nat) (kp : bool) (faces : list (Face * SpeechEnv))
      (fe : Face * SpeechEnv) :
  In fe (processed n kp faces) -> In fe faces.
Proof.
  induction faces as [|fe' faces IH]; cbn [processed]; [auto|].
  destruct (kp && lacksKeypoints n (fst fe')); cbn [In]; intuition.
Qed.

(** The world [drawResults] leaves on a frame with faces, or on a page
    without the status line, is the one the bounding-box blocks of the
    faces it got to have made. *)
Lemma drawResults_world (n : nat) (cw ch : number) (bb kp : bool)
      (faces : list (Face * SpeechEnv)) (w : World) :
  faces <> [] \/ faceStatus (doc w) = None ->
  world_of (drawResults n cw ch faces bb kp w) =
  fold_left (drawFaceBox cw ch bb) (processed n kp faces) w.
Proof.
  intros H. unfold drawResults.
  replace (if Nat.eqb (List.length faces) 0
           then match faceStatus (doc w) with
                | Some _ =>
                  with_doc (with_faceStatus
                    (Some {| textContent := NO_FACE_STATUS; color := "orange" |}) (doc w)) w
                | None => w
                end
           else w) with w.
  - apply forEach_drawFace.
  - destruct faces as [|fe faces]; [|reflexivity].
    destruct H as [H|H]; [congruence|]. cbn. rewrite H. reflexivity.
Qed.

Lemma drawResults_effect (n : nat) (cw ch : number) (bb kp : bool)
      (faces : list (Face * SpeechEnv)) (w : World) :
  let w' := world_of (drawResults n cw ch faces bb kp w) in
  same_but_status (doc w) (doc w') /\
  STATE w' = STATE w /\ vars w' = vars w /\ timers w' = timers w /\
  (faceStatus (doc w') = None <-> faceStatus (doc w) = None) /\
  exists l, spoken (trace w') = spoken (trace w) ++ l /\
    Forall (fun t => t = CENTERED_ANNOUNCEMENT \/
                     exists fe, In fe faces /\ t = getFacePositionGuidance (fst fe) cw ch) l.
Proof.
  cbv zeta.
  destruct faces as [|fe faces].
  - unfold drawResults. cbn [List.length Nat.eqb forEach world_of].
    destruct (faceStatus (doc w)) eqn:Es; cbn [with_doc doc STATE vars timers trace].
    + split; [unfold same_but_status; destruct (doc w); reflexivity|].
      repeat (split; [reflexivity|]).
      split; [cbn; split; discriminate|].
      exists []. rewrite app_nil_r. auto.
    + split; [apply same_but_status_refl|]. repeat (split; [reflexivity|]).
      split; [rewrite Es; tauto|]. exists []. rewrite app_nil_r. auto.
  - rewrite drawResults_world by (left; discriminate).
    destruct (drawFaces_effect cw ch bb (processed n kp (fe :: faces)) w)
      as (Hd & H2 & H3 & H4 & Hnone & l & Hl & Hf).
    cbv zeta in *. repeat (split; [assumption|]).
    split.
    + split.
      * intros Hn. destruct (faceStatus (doc w)) eqn:Es; [|reflexivity].
        exfalso. revert Hn. apply drawFaces_keep_status. rewrite Es. discriminate.
      * intros Hs. destruct (Hnone Hs) as (_ & _ & ->). exact Hs.
    + exists l. split; [exact Hl|].
      eapply Forall_impl; [|exact Hf]. cbv beta. intros t [->|(fe' & Hin & ->)]; [auto|].
      right. exists fe'. split; [|reflexivity].
      exact (processed_incl n kp (fe :: faces) fe' Hin).
Qed.

(** X6: whatever the faces of a frame, and however it ends, [drawResults]
    hands the synthesizer only the centered message or the guidance of one
    of the frame's faces: the generic not-centered message is never
    spoken. *)
Theorem drawResults_says_only_guidance (n : nat) (cw ch : number) (bb kp : bool)
        (faces : list (Face * SpeechEnv)) (w : World) :
  exists l,
    spoken (trace (world_of (drawResults n cw ch faces bb kp w))) = spoken (trace w) ++ l /\
    Forall (fun t => t = CENTERED_ANNOUNCEMENT \/
                     exists fe, In fe faces /\ t = getFacePositionGuidance (fst fe) cw ch) l /\
    ~ In NOT_CENTERED_ANNOUNCEMENT l.
Proof.
  destruct (drawResults_effect n cw ch bb kp faces w) as (_ & _ & _ & _ & _ & l & Hl & Hf).
  exists l. repeat split; auto.
  intros Hin. rewrite Forall_forall in Hf. destruct (Hf _ Hin) as [H|(fe & _ & H)].
  - discriminate.
  - symmetry in H. apply guidance_is_not_the_generic_message in H. exact H.
Qed.

(** X7: on a page without the status line [drawResults], however it ends,
    says and shows nothing: only the guidance of the face evaluated last
    is kept, for a later request.  That face is the last of the frame,
    unless key points are shown and an earlier face has too few: then the
    call throws at the first such face, which is the one evaluated
    last. *)
Theorem drawResults_without_status_element (n : nat) (cw ch : number) (kp : bool)
        (faces : list (Face * SpeechEnv)) (w : World) :
  faceStatus (doc w) = None ->
  let result := drawResults n cw ch faces true kp w in
  let w' := world_of result in
  trace w' = trace w /\ util w' = util w /\ doc w' = doc w /\
  currentFaceGuidance w' =
    match rev (processed n kp faces) with
    | [] => currentFaceGuidance w
    | fe :: _ => Some (getFacePositionGuidance (fst fe) cw ch)
    end /\
  (keypointsMissing n kp faces = false ->
     processed n kp faces = faces /\ result = Normal w') /\
  (keypointsMissing n kp faces = true -> result = Thrown w' KEYPOINT_ERROR).
Proof.
  intros Hs. cbv zeta.
  assert (Hr : drawResults n cw ch faces true kp w =
               if keypointsMissing n kp faces
               then Thrown (world_of (drawResults n cw ch faces true kp w)) KEYPOINT_ERROR
               else Normal (world_of (drawResults n cw ch faces true kp w))).
  { unfold drawResults. rewrite Hs.
    replace (if Nat.eqb (List.length faces) 0 then w else w) with w
      by (destruct (Nat.eqb _ _); reflexivity).
    apply forEach_drawFace. }
  rewrite drawResults_world in * by (right; exact Hs).
  destruct (drawFaces_effect cw ch true (processed n kp faces) w)
    as (_ & _ & _ & _ & Hnone & _).
  destruct (Hnone Hs) as (Ht & Hu & Hd). cbv zeta in *.
  repeat (split; [assumption|]).
  split; [|split; intros Hk; rewrite Hk in Hr; auto using processed_all].
  clear Ht Hu Hd Hnone Hr. generalize (processed n kp faces). clear faces.
  intros faces. revert w Hs.
  induction faces as [|fe faces IH] using rev_ind; intros w Hs.
  - reflexivity.
  - rewrite fold_left_app, rev_app_distr. cbn [rev app fold_left].
    destruct fe as [face env]. cbn [drawFaceBox fst].
    destruct (drawFaces_effect cw ch true faces w) as (_ & _ & _ & _ & Hnone & _).
    destruct (Hnone Hs) as (_ & _ & Hd). cbv zeta in Hd.
    unfold updateFaceStatus. cbn [with_guidance doc]. rewrite Hd, Hs. reflexivity.
Qed.

Lemma drawResults_without_status_element_witness :
  let result := drawResults 6%nat 640 480 [(left_face, speaking_at 10000)] true false
                            page_without_status in
  let w' := world_of result in
  trace w' = trace page_without_status /\ util w' = util page_without_status /\
  doc w' = doc page_without_status /\
  currentFaceGuidance w' = Some (getFacePositionGuidance left_face 640 480) /\
  (keypointsMissing 6%nat false [(left_face, speaking_at 10000)] = false ->
     processed 6%nat false [(left_face, speaking_at 10000)] = [(left_face, speaking_at 10000)] /\
     result = Normal w') /\
  (keypointsMissing 6%nat false [(left_face, speaking_at 10000)] = true ->
     result = Thrown w' KEYPOINT_ERROR).
Proof.
  exact (drawResults_without_status_element 6%nat 640 480 false
           [(left_face, speaking_at 10000)] page_without_status eq_refl).
Defined.

End FrameFacts.

(* ================================================================== *)
(** * The render loop: further properties *)
(* ================================================================== *)

Section LoopFacts.
Import JS Util Index Spec Example Observe Inputs.
Local Open Scope string_scope.
Local Open Scope float_scope.
Local Open Scope list_scope.

Lemma new_events_app (w w' : World) (l : list Event) :
  trace w' = trace w ++ l -> new_events w w' = l.
Proof.
  intros H. unfold new_events. rewrite H, skipn_app, skipn_all, Nat.sub_diag.
  reflexivity.
Qed.

Lemma speakMessage_extends (message : string) (interrupt : bool)
      (env : SpeechEnv) (w : World) :
  exists l, trace (speakMessage message interrupt env w) = trace w ++ l.
Proof.
  unfold speakMessage.
  destruct (hasSpeech env), (String.eqb message _ && _)%bool,
    (interrupt && speaking env)%bool, (paused env), (speakThrows env);
    cbn; rewrite <- ?app_assoc; eexists; reflexivity.
Qed.

Lemma updateFaceStatus_extends (isCentered : bool) (env : SpeechEnv) (w : World) :
  exists l, trace (updateFaceStatus isCentered env w) = trace w ++ l.
Proof.
  unfold updateFaceStatus.
  destruct (faceStatus (doc w)); [|exists []; rewrite app_nil_r; reflexivity].
  destruct isCentered.
  - match goal with
    | |- context [speakMessage ?m ?i ?e ?x] =>
      destruct (speakMessage_extends m i e x) as (l & Hl)
    end.
    destruct (takeAndDownloadButton _); cbn [emit trace]; rewrite Hl; cbn [with_doc trace];
      rewrite <- ?app_assoc; eexists; reflexivity.
  - cbn [with_doc currentFaceGuidance].
    destruct (currentFaceGuidance w) as [g|]; [destruct (truthy (Some g))|];
      match goal with
      | |- context [speakMessage ?m ?i ?e ?x] =>
        destruct (speakMessage_extends m i e x) as (l & Hl)
      end; rewrite Hl; eexists; reflexivity.
Qed.

Lemma drawResults_extends (n : nat) (cw ch : number) (bb kp : bool)
      (faces : list (Face * SpeechEnv)) (w : World) :
  exists l, trace (world_of (drawResults n cw ch faces bb kp w)) = trace w ++ l.
Proof.
  unfold drawResults.
  set (w0 := if Nat.eqb _ _ then _ else w).
  assert (H0 : trace w0 = trace w)
    by (unfold w0; destruct (Nat.eqb _ _); [destruct (faceStatus _)|]; reflexivity).
  rewrite <- H0. clearbody w0. clear H0.
  destruct (forEach_drawFace n cw ch bb kp faces w0) as [-> _].
  generalize (processed n kp faces). clear faces. intros faces. revert w0.
  induction faces as [|[face env] faces IH]; intros w0; cbn [fold_left].
  - exists []. rewrite app_nil_r. reflexivity.
  - destruct (IH (drawFaceBox cw ch bb w0 (face, env))) as (l2 & Hl2).
    rewrite Hl2. cbn [drawFaceBox]. destruct bb.
    + match goal with
      | |- context [updateFaceStatus ?c ?e ?x] =>
        destruct (updateFaceStatus_extends c e x) as (l1 & Hl1)
      end.
      rewrite Hl1. cbn [with_guidance trace]. rewrite <- app_assoc. eexists; reflexivity.
    + eexists; reflexivity.
Qed.

(** X8: [checkGuiUpdate] either completes with every change flag cleared, or
    throws because the backend could not be set; then the model-changed
    flag stays raised, the pending frame is cancelled, and the detector,
    though disposed, is still the one the loop refers to. *)
Theorem checkGuiUpdate_outcome (env : GuiEnv) (w : World) :
  match checkGuiUpdate env w with
  | Normal w' => gui_unchanged w'
  | Thrown w' e =>
    backendThrows env = Some e /\
    isFlagChanged (STATE w) || isBackendChanged (STATE w) = true /\
    isModelChanged (STATE w') = true /\
    detector (vars w') = detector (vars w) /\
    new_events w w' =
      CancelAnimationFrame ::
      match detector (vars w) with Some d => [DetectorDispose d] | None => [] end
  end.
Proof.
  unfold checkGuiUpdate, gui_unchanged.
  destruct w as [u g d st v tm tr]. destruct st as [f1 f2 f3 f4 f5 bb kp].
  cbn [STATE isTargetFPSChanged isSizeOptionChanged isModelChanged isFlagChanged
       isBackendChanged].
  destruct f1, f2, f3, f4, f5; cbn -[new_events];
    destruct (detector v) eqn:Ed; cbn -[new_events]; rewrite ?Ed; cbn -[new_events];
    try destruct (backendThrows env) eqn:Eb; cbn -[new_events];
    try destruct (created env); cbn -[new_events];
    repeat split; auto;
    try (apply new_events_app; cbn; rewrite <- ?app_assoc; reflexivity).
Qed.













Lemma drawFrame_outcome (n : nat) (faces : option (list (Face * SpeechEnv)))
      (w w1 : World) (l1 : list Event) :
  trace w1 = trace w ++ l1 -> STATE w1 = STATE w ->
  let drawn := match faces with
               | Some fs => if isModelChanged (STATE w) then [] else fs
               | None => []
               end in
  match drawFrame n faces w1 with
  | Thrown w' e =>
    keypointsMissing n (keypointsOption (STATE w)) drawn = true /\
    e = KEYPOINT_ERROR /\ In DrawCtx (new_events w w')
  | Normal w' =>
    keypointsMissing n (keypointsOption (STATE w)) drawn = false /\
    In DrawCtx (new_events w w')
  end.
Proof.
  intros Ht Hs. cbv zeta. unfold drawFrame.
  assert (H2 : trace (emit DrawCtx w1) = trace w ++ (l1 ++ [DrawCtx]))
    by (cbn; rewrite Ht, app_assoc; reflexivity).
  assert (Hin : In DrawCtx (new_events w (emit DrawCtx w1))).
  { rewrite (new_events_app w _ _ H2). rewrite in_app_iff. cbn. auto. }
  assert (Hnone : forall kp, keypointsMissing n kp [] = false)
    by (intros kp; unfold keypointsMissing; cbn; apply andb_false_r).
  destruct faces as [fs|]; [|split; [apply Hnone | exact Hin]].
  cbn [emit STATE]. rewrite Hs.
  destruct fs as [|fe fs].
  { cbn [List.length Nat.ltb Nat.leb andb].
    split; [destruct (isModelChanged (STATE w)); apply Hnone | exact Hin]. }
  cbn [List.length Nat.ltb Nat.leb andb].
  destruct (isModelChanged (STATE w)); cbn [negb];
    [split; [apply Hnone | exact Hin]|].
  unfold camera_drawResults.
  match goal with
  | |- context [drawResults ?m ?a ?b ?c ?e ?f ?x] =>
    destruct (drawResults_faces m a b e f fe fs x) as [_ Hr];
      destruct (drawResults_extends m a b e f c x) as (l2 & Hl2)
  end.
  cbv zeta in Hr. rewrite Hr.
  assert (Hin' : forall w', trace w' = trace (emit DrawCtx w1) ++ l2 ->
                            In DrawCtx (new_events w w')).
  { intros w' Hw'. rewrite (new_events_app w w' ((l1 ++ [DrawCtx]) ++ l2)).
    - rewrite !in_app_iff. cbn. auto.
    - rewrite Hw', H2, <- !app_assoc. reflexivity. }
  destruct (keypointsMissing n _ _); auto.
Qed.

(** X9: a frame throws in two cases, and in no other.  One: it runs
    inference, a panel update is due and the stats panel was never set
    up; it then throws before the video is redrawn, and neither the page
    nor the announcement record has changed.  Two: the panel is not
    missing, key points are shown and a face handed to [drawResults] has
    fewer than [NUM_KEYPOINTS] of them; it then throws after the video was
    redrawn.  A frame that completes has redrawn the video. *)
Theorem frame_throw_causes (n : nat) (env : FrameEnv) (w : World) :
  let keypoints :=
    keypointsMissing n (keypointsOption (STATE w)) (facesDrawn env w) in
  match renderResult n env w with
  | Thrown w' e =>
    (panelMissing env w = true /\
     doc w' = doc w /\ util w' = util w /\ ~ In DrawCtx (new_events w w')) \/
    (panelMissing env w = false /\ keypoints = true /\
     e = KEYPOINT_ERROR /\ In DrawCtx (new_events w w'))
  | Normal w' =>
    panelMissing env w = false /\ keypoints = false /\ In DrawCtx (new_events w w')
  end.
Proof.
  cbv zeta. unfold renderResult, panelMissing, facesDrawn.
  destruct (detector (vars w)) as [d|] eqn:Ed.
  2:{ pose proof (drawFrame_outcome n None w w [] (eq_sym (app_nil_r _)) eq_refl) as H.
      cbv zeta in H. destruct (drawFrame n None w); [|right]; intuition. }
  set (w0 := beginEstimateFaceStats (beginTime env) w).
  destruct (inference env) as [fs|error].
  - unfold endEstimateFaceStats. cbv zeta.
    change (lastPanelUpdate (vars w0)) with (lastPanelUpdate (vars w)).
    change (stats (vars w0)) with (stats (vars w)).
    destruct (PrimFloat.leb _ _) eqn:Edue; [destruct (stats (vars w)) eqn:Es|];
      cbn [negb andb].
    + match goal with
      | |- context [drawFrame n (Some fs) ?x] =>
        pose proof (drawFrame_outcome n (Some fs) w x [_] eq_refl eq_refl) as H
      end.
      cbv zeta in H. destruct (drawFrame n (Some fs) _); [|right]; intuition.
    + left. repeat (split; [reflexivity|]).
      rewrite (new_events_app w _ []); [auto | cbn; rewrite app_nil_r; reflexivity].
    + rewrite ?andb_false_r.
      match goal with
      | |- context [drawFrame n (Some fs) ?x] =>
        pose proof (drawFrame_outcome n (Some fs) w x []
                      (eq_sym (app_nil_r _)) eq_refl) as H
      end.
      cbv zeta in H. destruct (drawFrame n (Some fs) _); [|right]; intuition.
  - unfold endEstimateFaceStats. cbv zeta.
    cbn [emit with_vars with_detector vars stats lastPanelUpdate].
    change (lastPanelUpdate (vars w0)) with (lastPanelUpdate (vars w)).
    change (stats (vars w0)) with (stats (vars w)).
    destruct (PrimFloat.leb _ _) eqn:Edue; [destruct (stats (vars w)) eqn:Es|];
      cbn [negb andb].
    + match goal with
      | |- context [drawFrame n None ?x] =>
        assert (Htr : exists l1, trace x = trace w ++ l1)
          by (eexists; cbn; rewrite <- !app_assoc; reflexivity);
        destruct Htr as (l1 & Htr);
        pose proof (drawFrame_outcome n None w x l1 Htr eq_refl) as H
      end.
      cbv zeta in H. destruct (drawFrame n None _); [|right]; intuition.
    + left. repeat (split; [reflexivity|]).
      rewrite (new_events_app w _ [DetectorDispose d; Alert error]).
      * intros [H|[H|[]]]; discriminate.
      * cbn. rewrite <- !app_assoc. reflexivity.
    + rewrite ?andb_false_r.
      match goal with
      | |- context [drawFrame n None ?x] =>
        assert (Htr : exists l1, trace x = trace w ++ l1)
          by (eexists; cbn; rewrite <- !app_assoc; reflexivity);
        destruct Htr as (l1 & Htr);
        pose proof (drawFrame_outcome n None w x l1 Htr eq_refl) as H
      end.
      cbv zeta in H. destruct (drawFrame n None _); [|right]; intuition.
Qed.

End LoopFacts.

(* ================================================================== *)
(** * Capture, download and start-over *)
(* ================================================================== *)

Section CaptureFacts.
Import JS Util Index IndexActions Spec Example Observe Inputs.
Local Open Scope list_scope.
Local Open Scope string_scope.

Lemma saves_app (l1 l2 : list Event) : saves (l1 ++ l2)%list = (saves l1 ++ saves l2)%list.
Proof.
  induction l1 as [|e l1 IH]; [reflexivity|].
  destruct e; cbn; rewrite ?IH; reflexivity.
Qed.

Lemma skipn_own_length {A : Type} (l l' : list A) : skipn (List.length l) (l ++ l')%list = l'.
Proof. rewrite skipn_app, skipn_all, Nat.sub_diag. reflexivity. Qed.

(** X11: where [savePhoto] takes the download-link path (off mobile
    devices, or without a share function), a centered take-and-download
    downloads the photo exactly once, under the name made from the time
    of the capture: when the task it queued for 1500 ms later runs, if
    the browser can speak, and at once if it cannot; no share is started,
    and the render loop's pending frame is cancelled then. *)
Theorem take_and_download_saves_once (env : CaptureEnv) (w : World) :
  statusIsCentered w = true ->
  mobile env && canShare env = false ->
  let w1 := takeAndDownloadPhoto env w in
  let done := new_events w (run_queued env w w1) in
  saves (new_events w w1) = (if speech env then [] else [photoName (isoString env)]) /\
  saves done = [photoName (isoString env)] /\
  In (DownloadPhoto (photoName (isoString env))) done /\
  In CancelAnimationFrame done.
Proof.
  intros Hc Hm. cbv zeta. unfold takeAndDownloadPhoto. rewrite Hc. clear Hc.
  unfold run_queued, new_events, photoName.
  destruct env as [sp ac vf vw vh iso mob cs clk]. cbn [mobile canShare] in Hm.
  destruct w as [u g d st v tm tr]. destruct d as [fs tb sb dd pc cp].
  destruct sp, ac, mob, cs, fs, tb, sb; try discriminate Hm;
    cbn -[String.append replace_colon_dot skipn];
    rewrite <- ?app_assoc, ?skipn_own_length;
    cbn -[String.append replace_colon_dot skipn];
    rewrite <- ?app_assoc, ?skipn_own_length;
    cbn -[String.append replace_colon_dot]; auto 10.
Qed.

Lemma take_and_download_saves_once_witness :
  let w1 := takeAndDownloadPhoto desktop centred_page in
  let done := new_events centred_page (run_queued desktop centred_page w1) in
  saves (new_events centred_page w1) = [] /\
  saves done = [photoName "2025-01-01T00:00:00.000Z"] /\
  In (DownloadPhoto (photoName "2025-01-01T00:00:00.000Z")) done /\
  In CancelAnimationFrame done.
Proof.
  exact (take_and_download_saves_once desktop centred_page eq_refl eq_refl).
Defined.

(** X12: the name of a saved photo holds no colon, and no dot but the one of
    its extension; it is as long as the time it is made from, and 11
    characters more. *)
Theorem photo_name_is_a_file_name (iso : string) :
  exists stem,
    photoName iso = "selfie_" ++ stem ++ ".png" /\
    String.length stem = String.length iso /\
    includes stem ":" = false /\ includes stem "." = false /\
    String.length (photoName iso) = String.length iso + 11.
Proof.
  exists (replace_colon_dot iso). split; [reflexivity|].
  assert (L : String.length (replace_colon_dot iso) = String.length iso)
    by (induction iso as [|c iso IH]; cbn; congruence).
  split; [exact L|].
  assert (N : forall x : ascii, (Ascii.eqb x ":" || Ascii.eqb x ".")%bool = true ->
              includes (replace_colon_dot iso) (String x EmptyString) = false).
  { clear L. intros x Hx. induction iso as [|c iso IH]; [reflexivity|].
    cbn [replace_colon_dot includes String.prefix]. rewrite IH.
    destruct (Ascii.eqb c ":" || Ascii.eqb c ".")%bool eqn:Ec.
    - destruct (ascii_dec x "-") as [->|Hne]; [discriminate|]. reflexivity.
    - destruct (ascii_dec x c) as [->|_]; [congruence|]. reflexivity. }
  split; [apply N; reflexivity|]. split; [apply N; reflexivity|].
  unfold photoName.
  assert (A : forall a b, String.length (a ++ b) = String.length a + String.length b)
    by (intros a b; induction a; cbn; congruence).
  rewrite !A, L. cbn. lia.
Qed.

Lemma capturePhoto_doc (env : CaptureEnv) (w : World) :
  statusIsCentered w = true ->
  let picture := {| frame := videoFrame env; flipped := true |} in
  doc (capturePhoto env w) =
  with_downloadDisabled false
    (with_photo {| pc_width := videoWidth env; pc_height := videoHeight env;
                   pc_content := Some picture |}
                {| src := Some picture; img_display := "block" |} (doc w)).
Proof.
  intros Hc. unfold capturePhoto. rewrite Hc. unfold playShutterSound, drawPhoto.
  destruct (speech env), (audioContext env); reflexivity.
Qed.

(** X13: what [downloadPhoto] hands on after a successful capture is the
    picture just taken, the mirrored video frame, under the name made from
    the time of the download. *)
Theorem captured_photo_is_what_is_downloaded (env : CaptureEnv) (senv : ShareEnv)
        (w : World) :
  statusIsCentered w = true ->
  let picture := Some {| frame := videoFrame env; flipped := true |} in
  let d := doc (capturePhoto env w) in
  downloadDisabled d = false /\ src (capturedPhoto d) = picture /\
  Forall (fun c => match c with
                   | FetchImage p | ShareUrl p _ => p = picture
                   | LinkClick f p => p = picture /\ f = photoName (s_isoString senv)
                   | ShareFiles f _ => f = photoName (s_isoString senv)
                   | LogShared | LogShareError => True
                   end) (downloadPhoto senv d).
Proof.
  intros Hc. cbv zeta. rewrite (capturePhoto_doc env w Hc).
  split; [reflexivity|]. split; [reflexivity|].
  unfold downloadPhoto, fallbackDownload, photoName.
  cbn [with_downloadDisabled with_photo photoCanvas pc_content].
  destruct (s_mobile senv), (hasCanShare senv), (hasShare senv), (fetchResolves senv),
    (canShareFiles senv), (shareResolves senv);
    cbn [andb orb negb]; repeat constructor.
Qed.

Lemma captured_photo_is_what_is_downloaded_witness :
  let picture := Some {| frame := videoFrame desktop; flipped := true |} in
  let d := doc (capturePhoto desktop centred_page) in
  downloadDisabled d = false /\ src (capturedPhoto d) = picture /\
  Forall (fun c => match c with
                   | FetchImage p | ShareUrl p _ => p = picture
                   | LinkClick f p => p = picture /\ f = photoName (s_isoString phone)
                   | ShareFiles f _ => f = photoName (s_isoString phone)
                   | LogShared | LogShareError => True
                   end) (downloadPhoto phone d).
Proof.
  exact (captured_photo_is_what_is_downloaded desktop phone centred_page eq_refl).
Defined.

(** X14: in a browser where [navigator.canShare] comes with
    [navigator.share], one press of the download button delivers the photo
    once, by a share that resolved or by a click on a download link,
    unless the image could not be fetched for sharing: then nothing is
    delivered and nothing is reported.  A share that fails is followed by
    the download link, and off mobile devices the link is all there is. *)
Theorem download_delivers_once (env : ShareEnv) (d : Document) :
  (hasCanShare env = true -> hasShare env = true) ->
  let calls := downloadPhoto env d in
  let link := LinkClick (photoName (s_isoString env)) (pc_content (photoCanvas d)) in
  List.length (filter delivers calls) =
    (if s_mobile env && (hasCanShare env || hasShare env) && negb (fetchResolves env)
     then 0 else 1) /\
  (In LogShareError calls -> last calls LogShared = link) /\
  (s_mobile env = false -> calls = [link]) /\
  (forall c, In c calls -> delivers c = true -> c = last calls LogShareError).
Proof.
  intros Hshare. cbv zeta. unfold downloadPhoto, fallbackDownload, photoName.
  destruct (s_mobile env), (hasCanShare env), (hasShare env), (fetchResolves env),
    (canShareFiles env), (shareResolves env);
    try (specialize (Hshare eq_refl); discriminate Hshare);
    cbn -[String.append replace_colon_dot];
    (split; [reflexivity|]);
    (split; [intros H; repeat (destruct H as [H|H]; try discriminate H); try contradiction;
             reflexivity|]);
    (split; [intros H; try discriminate H; reflexivity|]);
    intros c H Hd; repeat (destruct H as [<-|H]; try discriminate Hd); try contradiction;
    reflexivity.
Qed.

Lemma download_delivers_once_witness :
  let calls := downloadPhoto phone initial_document in
  let link := LinkClick (photoName (s_isoString phone)) None in
  List.length (filter delivers calls) = 1 /\
  (In LogShareError calls -> last calls LogShared = link) /\
  (s_mobile phone = false -> calls = [link]) /\
  (forall c, In c calls -> delivers c = true -> c = last calls LogShareError).
Proof. exact (download_delivers_once phone initial_document (fun _ => eq_refl)). Defined.

(** X15: on a page that has the start-over button, as the page of
    [index.html] does, pressing it after a photo was taken shows the
    capture button again, hides the start-over button and the photo, and
    asks for the next frame; it leaves the status line, the picture on the
    canvas, the enabled download button and the announcement record as
    the capture left them, so that a capture is let through at once
    exactly when it was before. *)
Theorem start_over_after_capture (env env' : CaptureEnv) (w : World) :
  startOverButton (doc w) <> None ->
  let w1 := disableAppAndShowStartOver env w in
  let w2 := startOver env' w1 in
  option_map display (takeAndDownloadButton (doc w2)) =
    option_map (fun _ => "block") (takeAndDownloadButton (doc w)) /\
  startOverButton (doc w2) = Some {| display := "none"; label := "Take Another Selfie" |} /\
  img_display (capturedPhoto (doc w2)) = "none" /\
  src (capturedPhoto (doc w2)) = src (capturedPhoto (doc w)) /\
  photoCanvas (doc w2) = photoCanvas (doc w) /\
  downloadDisabled (doc w2) = downloadDisabled (doc w) /\
  faceStatus (doc w2) = faceStatus (doc w) /\
  statusIsCentered w2 = statusIsCentered w /\
  util w2 = util w /\ vars w2 = vars w /\
  timers w2 = (timers w ++ [((clock env + 100)%Z, FocusStartOver)])%list /\
  hd_error (new_events w w2) = Some CancelAnimationFrame /\
  In RequestAnimationFrame (new_events w w2).
Proof.
  intros Hb. cbv zeta. unfold new_events, statusIsCentered.
  destruct env as [sp ac vf vw vh iso mob cs clk].
  destruct env' as [sp' ac' vf' vw' vh' iso' mob' cs' clk'].
  destruct w as [u g d st v tm tr]. destruct d as [fs tb sb dd pc cp].
  cbn [doc startOverButton] in Hb. destruct sb as [b|]; [clear Hb | congruence].
  destruct sp, sp', tb;
    cbn -[skipn]; rewrite <- ?app_assoc, ?skipn_own_length; cbn; auto 20.
Qed.

Lemma start_over_after_capture_witness :
  let w := takeAndDownloadPhoto desktop centred_page in
  let w1 := disableAppAndShowStartOver desktop w in
  let w2 := startOver desktop w1 in
  option_map display (takeAndDownloadButton (doc w2)) =
    option_map (fun _ => "block") (takeAndDownloadButton (doc w)) /\
  startOverButton (doc w2) = Some {| display := "none"; label := "Take Another Selfie" |} /\
  img_display (capturedPhoto (doc w2)) = "none" /\
  src (capturedPhoto (doc w2)) = src (capturedPhoto (doc w)) /\
  photoCanvas (doc w2) = photoCanvas (doc w) /\
  downloadDisabled (doc w2) = downloadDisabled (doc w) /\
  faceStatus (doc w2) = faceStatus (doc w) /\
  statusIsCentered w2 = statusIsCentered w /\
  util w2 = util w /\ vars w2 = vars w /\
  timers w2 = (timers w ++ [((clock desktop + 100)%Z, FocusStartOver)])%list /\
  hd_error (new_events w w2) = Some CancelAnimationFrame /\
  In RequestAnimationFrame (new_events w w2).
Proof.
  apply (start_over_after_capture desktop desktop
           (takeAndDownloadPhoto desktop centred_page)).
  vm_compute. discriminate.
Defined.

End CaptureFacts.

(* ================================================================== *)
(** * The announce-position button *)
(* ================================================================== *)

Section AnnounceFacts.
Import JS Util Index IndexActions Spec Example Observe Inputs.
Local Open Scope list_scope.
Local Open Scope string_scope.

Lemma append_assoc' (a b c : string) : (a ++ b) ++ c = a ++ b ++ c.
Proof. induction a as [|x a IH]; cbn; congruence. Qed.

Lemma append_empty (a : string) : a ++ "" = a.
Proof. induction a as [|x a IH]; cbn; congruence. Qed.

(** X16: the announce-position button reads out the status line the last
    face left, without its emoji, then the cached guidance, then, for a
    centered face, the hint to take the photo; it cancels what is being
    said, and touches neither the page nor the announcement record.
    Where the browser cannot speak it does nothing. *)
Theorem announce_position_reads_status (isCentered : bool) (env : SpeechEnv) (w0 : World) :
  faceStatus (doc w0) <> None ->
  let w := updateFaceStatus isCentered env w0 in
  let w' := announcePosition true w in
  let guidance := match currentFaceGuidance w0 with
                  | Some g => if truthy (Some g) then ". " ++ g else ""
                  | None => ""
                  end in
  new_events w w' =
    [SpeechCancel;
     SpeechSpeak ((if isCentered then CENTERED_STATUS else NOT_CENTERED_STATUS)
                  ++ guidance ++ (if isCentered then TAKE_PHOTO_HINT else ""))] /\
  util w' = util w /\ doc w' = doc w /\
  announcePosition false w = w.
Proof.
  intros Hs. cbv zeta.
  pose proof (updateFaceStatus_status isCentered env w0 Hs) as Hst.
  pose proof (updateFaceStatus_guidance isCentered env w0) as Hg.
  set (w := updateFaceStatus isCentered env w0) in *.
  unfold announcePosition. rewrite Hst, Hg.
  assert (T : trim (replace_first (replace_first (textContent (statusLine isCentered))
                                                 check_mark "") cross_mark "")
              = if isCentered then CENTERED_STATUS else NOT_CENTERED_STATUS)
    by (destruct isCentered; vm_compute; reflexivity).
  rewrite T. clear T.
  assert (I : includes (if isCentered then CENTERED_STATUS else NOT_CENTERED_STATUS)
                       "Centered" = isCentered)
    by (destruct isCentered; vm_compute; reflexivity).
  rewrite I. clear I.
  split; [|repeat split; reflexivity].
  apply new_events_app. cbn [emit trace]. rewrite <- app_assoc. cbn [app].
  do 3 f_equal.
  destruct (currentFaceGuidance w0) as [g|]; [destruct (truthy (Some g))|];
    destruct isCentered; rewrite ?append_assoc'; cbn [String.append];
    rewrite ?append_assoc', ?append_empty; reflexivity.
Qed.

Lemma announce_position_reads_status_witness :
  let w := updateFaceStatus true (speaking_at 10000) (page true) in
  let w' := announcePosition true w in
  new_events w w' =
    [SpeechCancel; SpeechSpeak (CENTERED_STATUS ++ "" ++ TAKE_PHOTO_HINT)] /\
  util w' = util w /\ doc w' = doc w /\
  announcePosition false w = w.
Proof.
  apply (announce_position_reads_status true (speaking_at 10000) (page true)).
  vm_compute. discriminate.
Defined.

End AnnounceFacts.

(* ================================================================== *)
(** * Backend set-up and platform tests *)
(* ================================================================== *)

Section BackendFacts.
Import JS IndexActions UtilBackend Observe Inputs.
Local Open Scope list_scope.
Local Open Scope string_scope.

Lemma first_invalid_none (ranges : list (string * list FlagValue))
      (entries : list (string * FlagValue)) :
  first_invalid ranges entries = None <-> Forall (in_range ranges) entries.
Proof.
  induction entries as [|[flag value] entries IH]; cbn [first_invalid].
  - split; auto.
  - destruct (lookup flag ranges) as [range|] eqn:El.
    + destruct (indexOf_finds range value) eqn:Ei; cbn [negb].
      * rewrite IH. split.
        -- intros H. constructor; [exists range; auto | exact H].
        -- intros H. inversion H. assumption.
      * split; [discriminate|]. intros H. inversion H as [|? ? (r & Hr & Hf) _].
        cbn in Hr, Hf. congruence.
    + split; [destruct (existsb _ _); discriminate|].
      intros H. inversion H as [|? ? (r & Hr & _) _]. cbn in Hr. congruence.
Qed.

Lemma first_invalid_kind (ranges : list (string * list FlagValue))
      (entries : list (string * FlagValue)) (error : TfError) :
  first_invalid ranges entries = Some error ->
  exists flag, In flag (map fst entries) /\
    (error = NotTunable flag \/ error = OutOfRange flag \/ error = NoIndexOf flag).
Proof.
  induction entries as [|[flag value] entries IH]; cbn [first_invalid]; [discriminate|].
  destruct (lookup flag ranges) as [range|].
  - destruct (indexOf_finds range value); cbn [negb].
    + intros H. destruct (IH H) as (f & Hin & Hk). exists f. cbn. auto.
    + intros [= <-]. exists flag. cbn. auto.
  - destruct (existsb _ _); intros [= <-]; exists flag; cbn; auto.
Qed.

(** X17: [setBackendAndEnvFlags] checks every flag before it sets any: a
    rejected configuration leaves TensorFlow.js untouched.  But the flags
    are set before the backend is, and stay set when the backend then
    turns out not to be registered. *)
Theorem flags_are_checked_before_they_are_set
        (ranges : list (string * list FlagValue)) (engine : EngineEnv)
        (flagConfig : FlagConfig) (backendString : string) (s : BackendState) :
  match setBackendAndEnvFlags ranges engine flagConfig backendString s with
  | Raises s' (NotRegistered name) =>
    exists entries, flagConfig = ConfigObject entries /\
      Forall (in_range ranges) entries /\
      s' = call (SetFlags entries) s /\
      inRegistryFactory engine name = false /\ name <> "webgpu"
  | Raises s' _ => s' = s
  | Returns s' =>
    (flagConfig = ConfigNullish /\ s' = s) \/
    exists entries rest, flagConfig = ConfigObject entries /\
      Forall (in_range ranges) entries /\
      calls s' = (calls s ++ SetFlags entries :: rest)%list
  end.
Proof.
  unfold setBackendAndEnvFlags.
  destruct flagConfig as [|typeName|entries]; [auto | reflexivity |].
  destruct (first_invalid ranges entries) as [error|] eqn:Ef.
  - destruct (first_invalid_kind _ _ _ Ef) as (flag & _ & [->|[->| ->]]); reflexivity.
  - apply first_invalid_none in Ef.
    destruct (split_on "-" backendString) as [|runtime pieces].
    + right. exists entries, []. auto.
    + destruct (String.eqb runtime "tfjs"); [|right; exists entries, []; auto].
      unfold resetBackend.
      destruct (inRegistryFactory engine (template (hd_error pieces))) eqn:Er; cbn [negb].
      * right. exists entries.
        destruct (inRegistry engine _); eexists; (split; [reflexivity|]);
          (split; [exact Ef|]); cbn; rewrite <- ?app_assoc; reflexivity.
      * destruct (hd_error pieces) as [n|] eqn:Eh; cbn [template] in *.
        -- destruct (String.eqb n "webgpu") eqn:En.
           ++ right. exists entries. eexists. split; [reflexivity|]. split; [exact Ef|].
              cbn. rewrite <- ?app_assoc. reflexivity.
           ++ exists entries. repeat split; auto.
              intros ->. discriminate.
        -- exists entries. repeat split; auto. discriminate.
Qed.

Lemma split_on_none (sep : ascii) (s : string) :
  includes s (String sep EmptyString) = false -> split_on sep s = [s].
Proof.
  induction s as [|c s IH]; [reflexivity|].
  cbn [includes String.prefix split_on].
  destruct (ascii_dec sep c) as [->|Hne].
  - destruct s; discriminate.
  - cbn [orb]. intros H. rewrite (IH H).
    destruct (Ascii.eqb c sep) eqn:E; [apply Ascii.eqb_eq in E; congruence | reflexivity].
Qed.

(** X18: asked for the backend [tfjs-name], with flags that pass, the
    function sets the flags and then: records the backend under the very
    string it was given when [name] is registered (re-registering it
    first when it is in use); falls back to the last backend recorded,
    or to tfjs-webgl, when [name] is the missing webgpu; and throws
    otherwise. *)
Theorem tfjs_backend_outcome
        (ranges : list (string * list FlagValue)) (engine : EngineEnv)
        (entries : list (string * FlagValue)) (name : string) (s : BackendState) :
  first_invalid ranges entries = None ->
  includes name "-" = false ->
  let result := setBackendAndEnvFlags ranges engine (ConfigObject entries)
                                      ("tfjs-" ++ name) s in
  if inRegistryFactory engine name then
    exists s', result = Returns s' /\
      lastTFJSBackend s' = Some ("tfjs-" ++ name) /\ backend s' = backend s /\
      calls s' = (calls s ++ SetFlags entries ::
                  (if inRegistry engine name
                   then [RemoveBackend name; RegisterBackend name] else [])
                  ++ [SetBackend name])%list
  else if String.eqb name "webgpu" then
    exists s', result = Returns s' /\
      lastTFJSBackend s' = lastTFJSBackend s /\
      backend s' = (if truthy (lastTFJSBackend s)
                    then template (lastTFJSBackend s) else "tfjs-webgl") /\
      calls s' = (calls s ++ [SetFlags entries; TfAlert WEBGPU_ALERT; ShowBackendConfigs])%list
  else
    result = Raises (call (SetFlags entries) s) (NotRegistered name).
Proof.
  intros Hv Hn. cbv zeta. unfold setBackendAndEnvFlags. rewrite Hv.
  change ("tfjs-" ++ name) with
    (String "t" (String "f" (String "j" (String "s" (String "-" name))))).
  cbn [split_on Ascii.eqb Bool.eqb]. rewrite (split_on_none "-" name Hn).
  cbn [String.eqb Ascii.eqb Bool.eqb hd_error]. unfold resetBackend. cbn [template].
  destruct (inRegistryFactory engine name); cbn [negb].
  - destruct (inRegistry engine name); eexists; (split; [reflexivity|]);
      cbn; rewrite <- ?app_assoc; auto.
  - destruct (String.eqb name "webgpu"); [|reflexivity].
    eexists; (split; [reflexivity|]). cbn. rewrite <- ?app_assoc. auto.
Qed.

Lemma tfjs_backend_outcome_witness :
  exists s',
    setBackendAndEnvFlags flag_ranges webgl_engine
      (ConfigObject [("WEBGL_VERSION", VNumber 2)]) "tfjs-webgl" fresh_backend = Returns s' /\
    lastTFJSBackend s' = Some "tfjs-webgl" /\ backend s' = "tfjs-webgl" /\
    calls s' = [SetFlags [("WEBGL_VERSION", VNumber 2)];
                RemoveBackend "webgl"; RegisterBackend "webgl"; SetBackend "webgl"].
Proof.
  exact (tfjs_backend_outcome flag_ranges webgl_engine
           [("WEBGL_VERSION", VNumber 2)] "webgl" fresh_backend eq_refl eq_refl).
Defined.

(** X19: every user agent that [isMobile] of the utilities takes for a mobile
    device is one for the test of the download and capture actions. *)
Theorem util_mobile_is_mobile_for_capture (userAgent : string) :
  isMobile userAgent = true -> userAgentIsMobile userAgent = true.
Proof.
  unfold isMobile, isAndroid, isiOS, userAgentIsMobile, test_words.
  cbn [existsb]. rewrite !orb_false_r.
  repeat match goal with
         | |- context [includes ?a ?b] => destruct (includes a b); cbn [orb]
         end; auto.
Qed.

Lemma util_mobile_is_mobile_for_capture_witness :
  userAgentIsMobile "Mozilla/5.0 (iPhone; CPU iPhone OS 17_0 like Mac OS X)" = true.
Proof.
  exact (util_mobile_is_mobile_for_capture
           "Mozilla/5.0 (iPhone; CPU iPhone OS 17_0 like Mac OS X)" eq_refl).
Defined.

End BackendFacts.
